(** * hatch-nodejs-version: the NodeJS metadata source

    A shallow embedding of [hatch_nodejs_version/metadata_source.py] and the
    properties of its person, repository and bugs parsers and of [update].

    Python strings are modelled as [string] (sequences of [ascii] code
    units), dictionaries as [gmap string _], exceptions as the left summand
    of [result], and the in-place mutation of the destination metadata as a
    state-and-error monad. *)

From Stdlib Require Import String Ascii ZArith List Bool.
From stdpp Require Import gmap strings list fin_maps.

Set Warnings "-register-all".
Local Open Scope string_scope.
Local Open Scope list_scope.

(** ** Python values and exceptions *)

(** The values [json.load] produces.  A JSON number is an [int] or a
    [float]; the program never inspects either, so a float carries its
    decimal mantissa and exponent only. *)
Inductive value : Type :=
| VNone
| VBool (b : bool)
| VInt (n : Z)
| VFloat (mantissa exponent : Z)
| VStr (s : string)
| VList (l : list value)
| VDict (d : gmap string value).

(** The exceptions the program can raise, or let escape from the
    operations it performs on its arguments. *)
Inductive error : Type :=
| ValueError (msg : string)
| KeyError (key : string)
| TypeError
| AttributeError
| OSError (msg : string)
| JSONDecodeError.

Definition result (A : Type) : Type := error + A.
Definition Ok {A : Type} (a : A) : result A := inr a.
Definition Err {A : Type} (e : error) : result A := inl e.

Definition rbind {A B : Type} (r : result A) (f : A → result B) : result B :=
  match r with
  | inl e => inl e
  | inr a => f a
  end.

(** [[f(x) for x in l]]: the first exception aborts the comprehension. *)
Fixpoint rmapM {A B : Type} (f : A → result B) (l : list A) : result (list B) :=
  match l with
  | [] => Ok []
  | x :: l' =>
      rbind (f x) (λ y, rbind (rmapM f l') (λ ys, Ok (y :: ys)))
  end.

(** ** Strings *)
Module Str.

(** [s[:n]] *)
Fixpoint take (n : nat) (s : string) : string :=
  match n, s with
  | S n', String c s' => String c (take n' s')
  | _, _ => ""
  end.

(** [s[n:]] *)
Fixpoint drop (n : nat) (s : string) : string :=
  match n, s with
  | S n', String c s' => drop n' s'
  | _, _ => s
  end.

Fixpoint all_chars (p : ascii → bool) (s : string) : bool :=
  match s with
  | "" => true
  | String c s' => p c && all_chars p s'
  end.

(** [c in s] *)
Fixpoint has_char (c : ascii) (s : string) : bool :=
  match s with
  | "" => false
  | String x s' => Ascii.eqb x c || has_char c s'
  end.

Fixpoint last_char (s : string) : option ascii :=
  match s with
  | "" => None
  | String c "" => Some c
  | String _ s' => last_char s'
  end.

Definition is_empty (s : string) : bool :=
  match s with "" => true | _ => false end.

(** The length of the longest prefix of [s] made of characters in [p]. *)
Fixpoint run (p : ascii → bool) (s : string) : nat :=
  match s with
  | "" => 0
  | String c s' => if p c then S (run p s') else 0
  end.

End Str.

Import Str.

(** ** Regular expressions: the fragment of Python's [re] the two patterns use

    [re.match] is a backtracking matcher: it explores the alternatives of a
    pattern depth first, in priority order, and answers with the first
    complete match.  [rmatch r st] lists, in that priority order, every
    state in which a match of [r] started in [st] can end; the first
    element of the list for the whole pattern is the match Python reports. *)
Module Re.

(** One-character matchers. *)
Inductive atom : Type :=
| ALit (c : ascii)             (* a literal character           *)
| ASet (cs : list ascii)       (* [...]                         *)
| ANotSet (cs : list ascii)    (* [^...], which accepts newline *)
| AAny.                        (* .  (no DOTALL: not a newline) *)

Inductive regex : Type :=
| RBol                              (* ^   (no MULTILINE) *)
| REol                              (* $   (no MULTILINE) *)
| RAtom (a : atom)
| RLit (w : string)                 (* a literal word     *)
| RStar (a : atom)                  (* a*  greedy         *)
| RLazyStar (a : atom)              (* a*? lazy           *)
| RLazyPlus (a : atom)              (* a+? lazy           *)
| RSeq (r1 r2 : regex)
| RAlt (r1 r2 : regex)              (* r1|r2              *)
| ROpt (r : regex)                  (* r?  greedy         *)
| RGroup (n : nat) (r : regex).     (* (r), group number n *)

(** A matcher state: the position in the subject, the text that remains
    from there, and the groups captured so far. *)
Record mstate : Type := MState {
  pos : nat;
  rest : string;
  caps : gmap nat string
}.

Definition newline : ascii := "010"%char.
Definition tab : ascii := "009"%char.

Definition mem (c : ascii) (cs : list ascii) : bool :=
  existsb (Ascii.eqb c) cs.

Definition atom_ok (a : atom) (c : ascii) : bool :=
  match a with
  | ALit x => Ascii.eqb c x
  | ASet cs => mem c cs
  | ANotSet cs => negb (mem c cs)
  | AAny => negb (Ascii.eqb c newline)
  end.

(** [$] holds at the end of the subject and just before a newline that
    ends the subject. *)
Definition at_end (s : string) : bool :=
  match s with
  | "" => true
  | String c "" => Ascii.eqb c newline
  | _ => false
  end.

Definition step (a : atom) (st : mstate) : list mstate :=
  match rest st with
  | String c s' =>
      if atom_ok a c then [MState (S (pos st)) s' (caps st)] else []
  | "" => []
  end.

Definition word (w : string) (st : mstate) : list mstate :=
  if String.prefix w (rest st)
  then [MState (pos st + String.length w) (drop (String.length w) (rest st))
          (caps st)]
  else [].

(** Greedy repetition tries the longest run first, then gives characters
    back one at a time. *)
Fixpoint greedy_star (a : atom) (p : nat) (s : string) (c : gmap nat string)
  : list mstate :=
  match s with
  | String x s' =>
      if atom_ok a x
      then greedy_star a (S p) s' c ++ [MState p s c]
      else [MState p s c]
  | "" => [MState p s c]
  end.

(** Lazy repetition tries the shortest run first, then takes characters
    one at a time. *)
Fixpoint lazy_star (a : atom) (p : nat) (s : string) (c : gmap nat string)
  : list mstate :=
  MState p s c ::
  match s with
  | String x s' => if atom_ok a x then lazy_star a (S p) s' c else []
  | "" => []
  end.

Definition capture (n : nat) (st st' : mstate) : mstate :=
  MState (pos st') (rest st')
    (<[n := take (pos st' - pos st) (rest st)]> (caps st')).

Fixpoint rmatch (r : regex) (st : mstate) : list mstate :=
  match r with
  | RBol => if Nat.eqb (pos st) 0 then [st] else []
  | REol => if at_end (rest st) then [st] else []
  | RAtom a => step a st
  | RLit w => word w st
  | RStar a => greedy_star a (pos st) (rest st) (caps st)
  | RLazyStar a => lazy_star a (pos st) (rest st) (caps st)
  | RLazyPlus a =>
      step a st ≫= λ st', lazy_star a (pos st') (rest st') (caps st')
  | RSeq r1 r2 => rmatch r1 st ≫= rmatch r2
  | RAlt r1 r2 => rmatch r1 st ++ rmatch r2 st
  | ROpt r' => rmatch r' st ++ [st]
  | RGroup n r' => capture n st <$> rmatch r' st
  end.

(** [re.match(pattern, s)]: anchored at position 0; [None] when nothing
    matches, the captured groups of the first match otherwise. *)
Definition re_match (r : regex) (s : string) : option (gmap nat string) :=
  caps <$> head (rmatch r (MState 0 s ∅)).

(** [match.groups()[n-1]]: [None] for a group that took no part. *)
Definition group (m : gmap nat string) (n : nat) : option string := m !! n.

End Re.

Import Re.

Infix "⋅" := RSeq (at level 41, right associativity).

(** [AUTHOR_PATTERN = r"^([^<(]+?)?[ \t]*(?:<([^>(]+?)>)?[ \t]*(?:\(([^)]+?)\)|$)"] *)
Definition AUTHOR_PATTERN : regex :=
  RBol
  ⋅ ROpt (RGroup 1 (RLazyPlus (ANotSet ["<"; "("]%char)))
  ⋅ RStar (ASet [" "%char; tab])
  ⋅ ROpt (RAtom (ALit "<") ⋅ RGroup 2 (RLazyPlus (ANotSet [">"; "("]%char))
          ⋅ RAtom (ALit ">"))
  ⋅ RStar (ASet [" "%char; tab])
  ⋅ RAlt (RAtom (ALit "(") ⋅ RGroup 3 (RLazyPlus (ANotSet [")"]%char))
          ⋅ RAtom (ALit ")"))
         REol.

(** [REPOSITORY_PATTERN = r"^(?:(gist|bitbucket|gitlab|github):)?(.*?)$"] *)
Definition REPOSITORY_PATTERN : regex :=
  RBol
  ⋅ ROpt (RGroup 1 (RAlt (RLit "gist") (RAlt (RLit "bitbucket")
                     (RAlt (RLit "gitlab") (RLit "github"))))
          ⋅ RAtom (ALit ":"))
  ⋅ RGroup 2 (RLazyStar AAny)
  ⋅ REol.

Definition REPOSITORY_TABLE : gmap string string :=
  {[ "gitlab" := "https://gitlab.com";
     "github" := "https://github.com";
     "gist" := "https://gist.github.com";
     "bitbucket" := "https://bitbucket.org" ]}.

(** ** [urllib.parse.urljoin]

    The repository resolver delegates to the standard library's [urljoin].
    The model follows CPython 3.11's [Lib/urllib/parse.py] for [str]
    arguments.  Two validations of the network location depend on Unicode
    normalisation and on the [ipaddress] module; they are parameters of the
    model ([None]: the check passes, [Some msg]: it raises [ValueError]). *)
Module UrlParse.

Definition uses_relative : list string :=
  [""; "ftp"; "http"; "gopher"; "nntp"; "imap"; "wais"; "file"; "https";
   "shttp"; "mms"; "prospero"; "rtsp"; "rtspu"; "sftp"; "svn"; "svn+ssh";
   "ws"; "wss"].

Definition uses_netloc : list string :=
  [""; "ftp"; "http"; "gopher"; "nntp"; "telnet"; "imap"; "wais"; "file";
   "mms"; "https"; "shttp"; "snews"; "prospero"; "rtsp"; "rtspu"; "rsync";
   "svn"; "svn+ssh"; "sftp"; "nfs"; "git"; "git+ssh"; "ws"; "wss"].

Definition uses_params : list string :=
  [""; "ftp"; "hdl"; "prospero"; "http"; "imap"; "https"; "shttp"; "rtsp";
   "rtspu"; "sip"; "sips"; "mms"; "sftp"; "tel"].

Definition str_mem (x : string) (l : list string) : bool :=
  existsb (String.eqb x) l.

Definition code (c : ascii) : nat := nat_of_ascii c.

Definition is_upper (c : ascii) : bool :=
  (65 <=? code c)%nat && (code c <=? 90)%nat.
Definition is_lower (c : ascii) : bool :=
  (97 <=? code c)%nat && (code c <=? 122)%nat.
Definition is_digit (c : ascii) : bool :=
  (48 <=? code c)%nat && (code c <=? 57)%nat.

(** [c.isascii() and c.isalpha()] *)
Definition is_ascii_alpha (c : ascii) : bool := is_upper c || is_lower c.

(** [c in scheme_chars] *)
Definition is_scheme_char (c : ascii) : bool :=
  is_lower c || is_upper c || is_digit c || mem c ["+"; "-"; "."]%char.

(** [c in _WHATWG_C0_CONTROL_OR_SPACE] *)
Definition is_c0_or_space (c : ascii) : bool := (code c <=? 32)%nat.

(** [c in _UNSAFE_URL_BYTES_TO_REMOVE] *)
Definition is_unsafe (c : ascii) : bool :=
  mem c [tab; "013"%char; newline].

Definition to_lower (c : ascii) : ascii :=
  if is_upper c then ascii_of_nat (code c + 32) else c.

Fixpoint lower (s : string) : string :=
  match s with
  | "" => ""
  | String c s' => String (to_lower c) (lower s')
  end.

Fixpoint remove_chars (p : ascii → bool) (s : string) : string :=
  match s with
  | "" => ""
  | String c s' =>
      if p c then remove_chars p s' else String c (remove_chars p s')
  end.

Fixpoint lstrip (p : ascii → bool) (s : string) : string :=
  match s with
  | "" => ""
  | String c s' => if p c then lstrip p s' else s
  end.

(** [s.rstrip(chars)]: [None] while everything to the right is stripped. *)
Fixpoint rstrip_aux (p : ascii → bool) (s : string) : option string :=
  match s with
  | "" => None
  | String c s' =>
      match rstrip_aux p s' with
      | Some t => Some (String c t)
      | None => if p c then None else Some (String c "")
      end
  end.

Definition rstrip (p : ascii → bool) (s : string) : string :=
  default "" (rstrip_aux p s).

Definition strip (p : ascii → bool) (s : string) : string :=
  rstrip p (lstrip p s).

(** [s.find(c)] with [None] for -1. *)
Fixpoint find (p : ascii → bool) (s : string) : option nat :=
  match s with
  | "" => None
  | String x s' => if p x then Some 0 else S <$> find p s'
  end.

(** [s.find(c, start)] *)
Definition find_from (p : ascii → bool) (start : nat) (s : string)
  : option nat :=
  (λ i, start + i) <$> find p (drop start s).

(** [s.rfind(c)] *)
Fixpoint rfind (p : ascii → bool) (s : string) : option nat :=
  match s with
  | "" => None
  | String x s' =>
      match rfind p s' with
      | Some i => Some (S i)
      | None => if p x then Some 0 else None
      end
  end.

Definition is_char (c : ascii) : ascii → bool := λ x, Ascii.eqb x c.

(** [s.split(c, 1)] for a string that contains [c]; [(s, "")] otherwise. *)
Definition split1 (c : ascii) (s : string) : string * string :=
  match find (is_char c) s with
  | Some i => (take i s, drop (S i) s)
  | None => (s, "")
  end.

(** [s.split(c)]: never empty. *)
Fixpoint split (c : ascii) (s : string) : list string :=
  match s with
  | "" => [""]
  | String x s' =>
      if Ascii.eqb x c then "" :: split c s'
      else match split c s' with
           | w :: ws => String x w :: ws
           | [] => [String x ""]
           end
  end.

(** [sep.join(l)] *)
Fixpoint join (sep : string) (l : list string) : string :=
  match l with
  | [] => ""
  | [w] => w
  | w :: l' => w +:+ sep +:+ join sep l'
  end.

Record parse_result : Type := ParseResult {
  scheme : string;
  netloc : string;
  path : string;
  params : string;
  query : string;
  fragment : string
}.

Section Checks.

(** [_check_bracketed_netloc] and the NFKC part of [_checknetloc]. *)
Variable check_bracketed_netloc : string → option string.
Variable check_nfkc : string → option string.

(** [_splitnetloc(url, 2)] *)
Definition _splitnetloc (url : string) : string * string :=
  let delim :=
    default (String.length url)
      (find_from (λ c, mem c ["/"; "?"; "#"]%char) 2 url) in
  (take (delim - 2) (drop 2 url), drop delim url).

(** [_checknetloc] *)
Definition _checknetloc (netloc : string) : option string :=
  if is_empty netloc || all_chars (λ c, (code c <? 128)%nat) netloc
  then None
  else check_nfkc netloc.

(** [urlsplit(url, scheme)], as the tuple
    [(scheme, netloc, url, query, fragment)] *)
Definition urlsplit (url scheme : string)
  : result (string * string * string * string * string) :=
  let url := lstrip is_c0_or_space url in
  let scheme := strip is_c0_or_space scheme in
  let url := remove_chars is_unsafe url in
  let scheme := remove_chars is_unsafe scheme in
  let '(scheme, url) :=
    match find (is_char ":") url, url with
    | Some (S i), String c0 _ =>
        if is_ascii_alpha c0 && all_chars is_scheme_char (take (S i) url)
        then (lower (take (S i) url), drop (S (S i)) url)
        else (scheme, url)
    | _, _ => (scheme, url)
    end in
  rbind
    (if String.prefix "//" url
     then
       let '(netloc, url) := _splitnetloc url in
       if (has_char "[" netloc && negb (has_char "]" netloc))
          || (has_char "]" netloc && negb (has_char "[" netloc))
       then Err (ValueError "Invalid IPv6 URL")
       else
         match (if has_char "[" netloc && has_char "]" netloc
                then check_bracketed_netloc netloc else None) with
         | Some msg => Err (ValueError msg)
         | None => Ok (netloc, url)
         end
     else Ok ("", url))
    (λ '(netloc, url),
      let '(url, fragment) :=
        if has_char "#" url then split1 "#" url else (url, "") in
      let '(url, query) :=
        if has_char "?" url then split1 "?" url else (url, "") in
      match _checknetloc netloc with
      | Some msg => Err (ValueError msg)
      | None => Ok (scheme, netloc, url, query, fragment)
      end).

(** [_splitparams] *)
Definition _splitparams (url : string) : string * string :=
  let found :=
    if has_char "/" url
    then find_from (is_char ";") (default 0 (rfind (is_char "/") url)) url
    else find (is_char ";") url in
  match found with
  | Some i => (take i url, drop (S i) url)
  | None => (url, "")
  end.

(** [urlparse(url, scheme)] *)
Definition urlparse (url scheme : string) : result parse_result :=
  rbind (urlsplit url scheme)
    (λ '(scheme, netloc, url, query, fragment),
      let '(url, params) :=
        if str_mem scheme uses_params && has_char ";" url
        then _splitparams url else (url, "") in
      Ok (ParseResult scheme netloc url params query fragment)).

(** [urlunsplit] *)
Definition urlunsplit (scheme netloc url query fragment : string)
  : string :=
  let url :=
    if negb (is_empty netloc)
       || (negb (is_empty scheme) && str_mem scheme uses_netloc
           && negb (String.prefix "//" url))
    then "//" +:+ netloc +:+
         (if negb (is_empty url) && negb (String.prefix "/" url)
          then "/" +:+ url else url)
    else url in
  let url := if is_empty scheme then url else scheme +:+ ":" +:+ url in
  let url := if is_empty query then url else url +:+ "?" +:+ query in
  if is_empty fragment then url else url +:+ "#" +:+ fragment.

(** [urlunparse] *)
Definition urlunparse (p : parse_result) : string :=
  let url :=
    if is_empty (params p) then path p
    else path p +:+ ";" +:+ params p in
  urlunsplit (scheme p) (netloc p) url (query p) (fragment p).

(** [segments[1:-1] = filter(None, segments[1:-1])] *)
Definition filter_middle (segments : list string) : list string :=
  match segments with
  | first :: (_ :: _) as tl =>
      first :: filter (λ w, is_empty w = false) (removelast tl)
            ++ [List.last tl ""]
  | _ => segments
  end.

(** One turn of the loop that resolves [.] and [..] segments. *)
Definition resolve_seg (resolved_path : list string) (seg : string)
  : list string :=
  if String.eqb seg ".." then removelast resolved_path
  else if String.eqb seg "." then resolved_path
  else resolved_path ++ [seg].

(** [urljoin(base, url)] *)
Definition urljoin (base url : string) : result string :=
  if is_empty base then Ok url
  else if is_empty url then Ok base
  else
    rbind (urlparse base "") (λ b,
    rbind (urlparse url (scheme b)) (λ u,
      if negb (String.eqb (scheme u) (scheme b))
         || negb (str_mem (scheme u) uses_relative)
      then Ok url
      else if str_mem (scheme u) uses_netloc && negb (is_empty (netloc u))
      then Ok (urlunparse u)
      else
        let netloc' :=
          if str_mem (scheme u) uses_netloc then netloc b else netloc u in
        if is_empty (path u) && is_empty (params u)
        then
          Ok (urlunparse
                (ParseResult (scheme u) netloc' (path b) (params b)
                   (if is_empty (query u) then query b else query u)
                   (fragment u)))
        else
          let base_parts := split "/" (path b) in
          let base_parts :=
            if is_empty (List.last base_parts "") then base_parts
            else removelast base_parts in
          let segments :=
            if String.prefix "/" (path u) then split "/" (path u)
            else filter_middle (base_parts ++ split "/" (path u)) in
          let resolved_path := fold_left resolve_seg segments [] in
          let resolved_path : list string :=
            if str_mem (List.last segments "") ["."; ".."]
            then resolved_path ++ [""] else resolved_path in
          let joined := join "/" resolved_path in
          Ok (urlunparse
                (ParseResult (scheme u) netloc'
                   (if is_empty joined then "/" else joined)
                   (params u) (query u) (fragment u))))).

End Checks.

End UrlParse.

(** ** Operations of the Python object model the source relies on *)

Fixpoint is_substring (w s : string) : bool :=
  String.prefix w s ||
  match s with
  | "" => false
  | String _ s' => is_substring w s'
  end.

Definition is_str (key : string) (x : value) : bool :=
  match x with
  | VStr s => String.eqb s key
  | _ => false
  end.

(** [key in v] *)
Definition contains (key : string) (v : value) : result bool :=
  match v with
  | VDict d => Ok (match d !! key with Some _ => true | None => false end)
  | VList l => Ok (existsb (is_str key) l)
  | VStr s => Ok (is_substring key s)
  | _ => Err TypeError
  end.

(** [v[key]], for a [str] key *)
Definition getitem (v : value) (key : string) : result value :=
  match v with
  | VDict d =>
      match d !! key with
      | Some x => Ok x
      | None => Err (KeyError key)
      end
  | _ => Err TypeError
  end.

(** [v.keys()] *)
Definition keys (v : value) : result (gset string) :=
  match v with
  | VDict d => Ok (dom d)
  | _ => Err AttributeError
  end.

(** [for p in v]: the elements of a list, the keys of a dictionary, the
    characters of a string. *)
Definition iterate (v : value) : result (list value) :=
  match v with
  | VList l => Ok l
  | VDict d => Ok (VStr <$> (map_to_list d).*1)
  | VStr s => Ok ((λ c, VStr (String c "")) <$> list_ascii_of_string s)
  | _ => Err TypeError
  end.

(** A group of a match as a Python value: [None] when it took no part. *)
Definition of_group (g : option string) : value :=
  match g with
  | Some s => VStr s
  | None => VNone
  end.

#[global] Instance result_ret : MRet result := λ A a, Ok a.
#[global] Instance result_bind : MBind result := λ A B f r, rbind r f.
#[global] Instance result_fmap : FMap result := λ A B f r,
  rbind r (λ a, Ok (f a)).

(** ** The destination metadata

    [update] mutates the caller's dictionary in place; an exception leaves
    the mutations made so far. *)
Definition M (A : Type) : Type :=
  gmap string value → gmap string value * result A.

#[global] Instance M_ret : MRet M := λ A a metadata, (metadata, Ok a).
#[global] Instance M_bind : MBind M := λ A B f m metadata,
  match m metadata with
  | (metadata', inr a) => f a metadata'
  | (metadata', inl e) => (metadata', inl e)
  end.

Definition lift {A : Type} (r : result A) : M A := λ metadata, (metadata, r).

(** [metadata[key] = v] *)
Definition setitem (key : string) (v : value) : M unit :=
  λ metadata, (<[key := v]> metadata, Ok tt).

Definition when (b : bool) (m : M unit) : M unit :=
  if b then m else mret tt.

(** ** [NodeJSMetadataSource] *)
Section NodeJSMetadataSource.

(** [urllib.parse.urljoin] *)
Variable urljoin : string → string → result string.

(** [_parse_bugs] *)
Definition _parse_bugs (bugs : value) : result value :=
  match bugs with
  | VStr _ => Ok bugs
  | _ =>
      has_url ← contains "url" bugs;
      if negb has_url then Ok VNone
      else getitem bugs "url"
  end.

(** [_parse_person] *)
Definition _parse_person (person : value) : result value :=
  person_keys ← keys person;
  if bool_decide (({["url"; "email"]} : gset string) ∩ person_keys ≠ ∅)
  then
    name ← getitem person "name";
    let result : gmap string value := {["name" := name]} in
    has_email ← contains "email" person;
    if has_email : bool
    then email ← getitem person "email";
         Ok (VDict (<["email" := email]> result))
    else Ok (VDict result)
  else
    name ← getitem person "name";
    match name with
    | VStr s =>
        match re_match AUTHOR_PATTERN s with
        | None => Err (ValueError ("Invalid author name: " +:+ s))
        | Some m =>
            let name := group m 1 in
            let email := group m 2 in
            let result : gmap string value := {["name" := of_group name]} in
            match email with
            | Some e => Ok (VDict (<["email" := VStr e]> result))
            | None => Ok (VDict result)
            end
        end
    | _ => Err TypeError
    end.

(** [_parse_repository] *)
Definition _parse_repository (repository : value) : result value :=
  match repository with
  | VStr s =>
      match re_match REPOSITORY_PATTERN s with
      | None => Err (ValueError ("Invalid repository string: " +:+ s))
      | Some m =>
          let kind := default "github" (group m 1) in
          match REPOSITORY_TABLE !! kind with
          | Some base =>
              match group m 2 with
              | Some identifier => VStr <$> urljoin base identifier
              | None => Ok (VStr base)
              end
          | None => Err (KeyError kind)
          end
      end
  | _ => getitem repository "url"
  end.

(** The block of [update] under [# Construct URLs]. *)
Definition construct_urls (package : value) : result (gmap string value) :=
  let urls : gmap string value := ∅ in
  has_homepage ← contains "homepage" package;
  urls ← (if has_homepage : bool
          then homepage ← getitem package "homepage";
               Ok (<["homepage" := homepage]> urls)
          else Ok urls);
  has_bugs ← contains "bugs" package;
  urls ← (if has_bugs : bool
          then bugs ← getitem package "bugs";
               bugs_url ← _parse_bugs bugs;
               match bugs_url with
               | VNone => Ok urls
               | _ => Ok (<["bug tracker" := bugs_url]> urls)
               end
          else Ok urls);
  has_repository ← contains "repository" package;
  if has_repository : bool
  then repository ← getitem package "repository";
       url ← _parse_repository repository;
       Ok (<["repository" := url]> urls)
  else Ok urls.

(** [package[src]] copied to [metadata[dst]] when [src in package]. *)
Definition copy_field (package : value) (src dst : string)
    (f : value → result value) : M unit :=
  has ← lift (contains src package);
  when has (v ← lift (getitem package src);
            r ← lift (f v);
            setitem dst r).

(** [update]; [loaded] is the outcome of [self.load_package_data()], which
    reads and decodes the manifest file. *)
Definition update (loaded : result value) : M unit :=
  package ← lift loaded;
  copy_field package "author" "author" _parse_person;;
  copy_field package "contributors" "maintainers"
    (λ v, ps ← iterate v; VList <$> rmapM _parse_person ps);;
  copy_field package "keywords" "keywords" Ok;;
  copy_field package "description" "description" Ok;;
  copy_field package "license" "license" Ok;;
  urls ← lift (construct_urls package);
  when (negb (Nat.eqb (size urls) 0)) (setitem "urls" (VDict urls)).

End NodeJSMetadataSource.

(** [urljoin] as CPython 3.11 implements it. *)
Definition cpython_urljoin (check_bracketed_netloc check_nfkc : string → option string)
  : string → string → result string :=
  UrlParse.urljoin check_bracketed_netloc check_nfkc.



(** ** The hook instance and the manifest file *)

(** A [NodeJSMetadataSource] instance: the configuration and the root
    directory the host hands over, and [self.__path], the memoised [path]
    option ([None] until the first successful access). *)
Record hook : Type := Hook {
  config : gmap string value;
  root : string;
  __path : option string
}.

(** [__init__] *)
Definition __init__ (config : gmap string value) (root : string) : hook :=
  Hook config root None.

(** The [path] property; it returns the instance as the access leaves it. *)
Definition path (self : hook) : hook * result string :=
  match __path self with
  | None =>
      let version_file :=
        default (VStr "package.json") (config self !! "path") in
      match version_file with
      | VStr s => (Hook (config self) (root self) (Some s), Ok s)
      | _ => (self, Err TypeError)
      end
  | Some p => (self, Ok p)
  end.

Section LoadPackageData.

(** The file system, as the standard library shows it to the hook:
    [os.path.join], [os.path.normpath], [os.path.isfile], and [open]
    followed by [json.load]. *)
Variable os_path_join : string → string → string.
Variable os_path_normpath : string → string.
Variable os_path_isfile : string → bool.
Variable json_load : string → result value.

(** [load_package_data]; the message of the [OSError] reads [self.path]
    once more. *)
Definition load_package_data (self : hook) : hook * result value :=
  let '(self, p) := path self in
  match p with
  | inl e => (self, Err e)
  | inr p =>
      let path' := os_path_normpath (os_path_join (root self) p) in
      if negb (os_path_isfile path')
      then
        let '(self, p') := path self in
        match p' with
        | inl e => (self, Err e)
        | inr p' => (self, Err (OSError ("file does not exist: " +:+ p')))
        end
      else (self, json_load path')
  end.

(** The method [update], from the instance: it loads the manifest, then
    proceeds as [update] above on the outcome. *)
Definition update_hook (urljoin : string → string → result string)
    (self : hook) (metadata : gmap string value)
  : hook * (gmap string value * result unit) :=
  let '(self, loaded) := load_package_data self in
  (self, update urljoin loaded metadata).

End LoadPackageData.

(** ** Vocabulary of the specification *)

(** [starts l x]: the first success in [l] is [x]. *)
Definition starts {A : Type} (l : list A) (x : A) : Prop := ∃ l', l = x :: l'.

(** The successes of a lazy repetition of [a] inside group [n] that has
    taken [u] so far and has [s] ahead. *)
Fixpoint lazy_from (a : atom) (n p : nat) (u s : string) (c : gmap nat string)
  : list mstate :=
  MState p s (<[n := u]> c) ::
  match s with
  | String x s' =>
      if atom_ok a x then lazy_from a n (S p) (u +:+ String x "") s' c else []
  | "" => []
  end.

(** A space or a tab, the separators of the author grammar. *)
Definition blank (c : ascii) : bool := mem c [" "%char; tab].

(** No character of [s] is in [cs]. *)
Definition free_of (cs : list ascii) (s : string) : bool :=
  all_chars (λ c, negb (mem c cs)) s.

(** The last character of [s] exists and satisfies [p]. *)
Definition ends_with (p : ascii → bool) (s : string) : bool :=
  match last_char s with
  | Some c => p c
  | None => false
  end.

(** Every line feed of [s] is its last character. *)
Fixpoint one_line (s : string) : bool :=
  match s with
  | "" => true
  | String c s' => if Ascii.eqb c newline then is_empty s' else one_line s'
  end.

(** [s] without the line feed that ends it, if one does. *)
Fixpoint chomp (s : string) : string :=
  match s with
  | "" => ""
  | String c s' =>
      if Ascii.eqb c newline && is_empty s' then "" else String c (chomp s')
  end.

(** [t] is what remains of a display name that is followed by [r]: it is
    not empty, has no [<] or [(], does not end with a blank, and is not a
    lone line feed at the end of the subject. *)
Definition inside (t r : string) : Prop :=
  t ≠ "" ∧ free_of ["<"; "("]%char t = true ∧ ends_with blank t = false
  ∧ (r = "" → ends_with (λ c, Ascii.eqb c newline) t = false).

(** The provider tags, in the order of the alternation of
    [REPOSITORY_PATTERN]. *)
Definition provider_tags : list string :=
  ["gist"; "bitbucket"; "gitlab"; "github"].

(** The provider tag that [s] starts with, colon included, if any. *)
Definition tag_of (s : string) : option string :=
  List.find (λ tag, String.prefix (tag +:+ ":") s) provider_tags.

(** The manifest field each top-level metadata key is copied from. *)
Definition field_table : list (string * string) :=
  [("author", "author"); ("contributors", "maintainers");
   ("keywords", "keywords"); ("description", "description");
   ("license", "license")].

(** [m] leaves [metadata[key]] as it finds it, whatever its outcome. *)
Definition preserves {A : Type} (key : string) (m : M A) : Prop :=
  ∀ metadata, (m metadata).1 !! key = metadata !! key.

(** The two netloc validations of [urlsplit] when both pass. *)
Definition no_check : string → option string := λ _, None.

(** [metadata[key] = v] when there is a [v] to write. *)
Definition put (key : string) (o : option value)
    (metadata : gmap string value) : gmap string value :=
  match o with
  | Some v => <[key := v]> metadata
  | None => metadata
  end.

(** What the field [src] of the manifest contributes through [f]: nothing
    when the field is absent, the result of [f] otherwise. *)
Definition copied (package : gmap string value) (src : string)
    (f : value → result value) (o : option value) : Prop :=
  match package !! src with
  | None => o = None
  | Some v => ∃ r, f v = Ok r ∧ o = Some r
  end.

(** The parser [update] applies to the [contributors] field. *)
Definition parse_contributors (v : value) : result value :=
  ps ← iterate v; VList <$> rmapM _parse_person ps.

(** The metadata [update] leaves on return, when the author contributes
    [a], the contributors [m], and the URL map is [urls]. *)
Definition updated (package : gmap string value) (a m : option value)
    (urls : gmap string value) (metadata : gmap string value)
  : gmap string value :=
  put "urls" (if Nat.eqb (size urls) 0 then None else Some (VDict urls))
    (put "license" (package !! "license")
       (put "description" (package !! "description")
          (put "keywords" (package !! "keywords")
             (put "maintainers" m (put "author" a metadata))))).

(** A character of a path segment: above the space and none of [:/?#;]. *)
Definition plain (c : ascii) : bool :=
  negb (UrlParse.is_c0_or_space c)
  && negb (mem c [":"; "/"; "?"; "#"; ";"]%char).

(** A path segment that [urljoin] keeps as it is: not empty, made of plain
    characters, and neither [.] nor [..]. *)
Definition segment (w : string) : bool :=
  negb (is_empty w) && all_chars plain w
  && negb (String.eqb w ".") && negb (String.eqb w "..").

(** A plain character or the slash between two segments. *)
Definition plain_or_slash (c : ascii) : bool := plain c || Ascii.eqb c "/".

(** The manifest fields [update] looks up, in the order of the source. *)
Definition manifest_fields : list string :=
  ["author"; "contributors"; "keywords"; "description"; "license";
   "homepage"; "bugs"; "repository"].

(** [key not in v], for a manifest [v] on which the test does not raise. *)
Definition lacks (v : value) (key : string) : bool :=
  match contains key v with
  | inr false => true
  | _ => false
  end.

(** * Properties *)

(** ** Strings *)
Section StrFacts.

Implicit Types (s t u v : string) (p : ascii → bool).

Lemma sapp_nil_l s : "" +:+ s = s.
Proof. reflexivity. Qed.

Lemma sapp_cons x s t : String x s +:+ t = String x (s +:+ t).
Proof. reflexivity. Qed.

Lemma sapp_nil_r s : s +:+ "" = s.
Proof.
  induction s as [|x s IH]; [done|]. by rewrite sapp_cons, IH.
Qed.

Lemma sapp_assoc s t u : (s +:+ t) +:+ u = s +:+ (t +:+ u).
Proof.
  induction s as [|x s IH]; [done|]. by rewrite !sapp_cons, IH.
Qed.

Lemma sapp_length s t :
  String.length (s +:+ t) = String.length s + String.length t.
Proof.
  induction s as [|x s IH]; [done|]. rewrite sapp_cons. simpl. by rewrite IH.
Qed.

Lemma sapp_snoc s x t : s +:+ String x t = (s +:+ String x "") +:+ t.
Proof. by rewrite sapp_assoc. Qed.

Lemma sapp_eq_nil s t : s +:+ t = "" → s = "" ∧ t = "".
Proof. destruct s; [done|]. by rewrite sapp_cons. Qed.

Lemma take_app_length s t : take (String.length s) (s +:+ t) = s.
Proof.
  induction s as [|x s IH]; [by destruct t|].
  rewrite sapp_cons. simpl. by rewrite IH.
Qed.

Lemma drop_app_length s t : drop (String.length s) (s +:+ t) = t.
Proof. induction s as [|x s IH]; [done|]. by rewrite sapp_cons. Qed.

Lemma drop_succ_app s x t : drop (S (String.length s)) (s +:+ String x t) = t.
Proof. induction s as [|y s IH]; [done|]. by rewrite sapp_cons. Qed.

Lemma all_chars_app p s t :
  all_chars p (s +:+ t) = all_chars p s && all_chars p t.
Proof.
  induction s as [|x s IH]; [done|].
  rewrite sapp_cons. simpl. by rewrite IH, andb_assoc.
Qed.

Lemma last_char_app s t : t ≠ "" → last_char (s +:+ t) = last_char t.
Proof.
  intros Ht. induction s as [|x s IH]; [done|].
  rewrite sapp_cons. simpl. rewrite IH.
  destruct (s +:+ t) eqn:E; [|done].
  by apply sapp_eq_nil in E as [_ ?].
Qed.

Lemma prefix_app s t : String.prefix s (s +:+ t) = true.
Proof.
  induction s as [|x s IH]; [by destruct t|].
  rewrite sapp_cons. simpl. by destruct (ascii_dec x x).
Qed.

Lemma prefix_inv s t :
  String.prefix s t = true → t = s +:+ drop (String.length s) t.
Proof.
  revert t. induction s as [|x s IH]; intros [|y t]; simpl; try done.
  destruct (ascii_dec x y) as [->|]; [|done].
  intros H. by rewrite sapp_cons, <- (IH _ H).
Qed.

End StrFacts.

(** ** The list of successes *)

Section Successes.

Context {A B : Type}.
Implicit Types (f : A → list B) (l k : list A).

Lemma starts_head l x : starts l x → head l = Some x.
Proof. by intros [l' ->]. Qed.

Lemma starts_here l x : starts (x :: l) x.
Proof. by exists l. Qed.

Lemma starts_app l k x : starts l x → starts (l ++ k) x.
Proof. intros [l' ->]. by exists (l' ++ k). Qed.

Lemma starts_bind f l x y : starts l x → starts (f x) y → starts (l ≫= f) y.
Proof.
  intros [l' ->] [k' Hk]. exists (k' ++ (l' ≫= f)).
  change ((x :: l') ≫= f) with (f x ++ (l' ≫= f)). by rewrite Hk.
Qed.

Lemma bind_singleton f x : [x] ≫= f = f x.
Proof. change ([x] ≫= f) with (f x ++ []). apply app_nil_r. Qed.

Lemma bind_cons_nil f x l : f x = [] → (x :: l) ≫= f = l ≫= f.
Proof. intros H. change ((x :: l) ≫= f) with (f x ++ (l ≫= f)). by rewrite H. Qed.

Lemma bind_all_nil f l : (∀ x, x ∈ l → f x = []) → l ≫= f = [].
Proof.
  induction l as [|x l IH]; intros H; [done|].
  rewrite bind_cons_nil; [|apply H; left].
  apply IH. intros y Hy. apply H. by right.
Qed.

End Successes.

(** ** The matcher *)
Section ReFacts.

Implicit Types (a : atom) (c : gmap nat string) (p n : nat).
Implicit Types (s t u v : string) (st : mstate) (k : mstate → list mstate).

Lemma rmatch_seq r1 r2 st : rmatch (r1 ⋅ r2) st = rmatch r1 st ≫= rmatch r2.
Proof. reflexivity. Qed.

Lemma rmatch_opt r st : rmatch (ROpt r) st = rmatch r st ++ [st].
Proof. reflexivity. Qed.

Lemma rmatch_alt r1 r2 st : rmatch (RAlt r1 r2) st = rmatch r1 st ++ rmatch r2 st.
Proof. reflexivity. Qed.

Lemma rmatch_bol s c : rmatch RBol (MState 0 s c) = [MState 0 s c].
Proof. reflexivity. Qed.

Lemma rmatch_eol st :
  rmatch REol st = if at_end (rest st) then [st] else [].
Proof. reflexivity. Qed.

Lemma rmatch_atom_cons a p x s c :
  rmatch (RAtom a) (MState p (String x s) c)
  = if atom_ok a x then [MState (S p) s c] else [].
Proof. reflexivity. Qed.

Lemma rmatch_atom_nil a p c : rmatch (RAtom a) (MState p "" c) = [].
Proof. reflexivity. Qed.

Lemma rmatch_star a p s c :
  rmatch (RStar a) (MState p s c) = greedy_star a p s c.
Proof. reflexivity. Qed.

Lemma greedy_star_cons a p x s c :
  greedy_star a p (String x s) c
  = if atom_ok a x
    then greedy_star a (S p) s c ++ [MState p (String x s) c]
    else [MState p (String x s) c].
Proof. reflexivity. Qed.

Lemma capture_lazy_star a n p u s c :
  capture n (MState p (u +:+ s) c) <$> lazy_star a (p + String.length u) s c
  = lazy_from a n (p + String.length u) u s c.
Proof.
  revert u. induction s as [|x s IH]; intros u.
  - simpl. unfold capture. simpl.
    by replace (p + String.length u - p) with (String.length u) by lia;
      rewrite take_app_length.
  - simpl. unfold capture at 1. simpl.
    replace (p + String.length u - p) with (String.length u) by lia.
    rewrite take_app_length. f_equal.
    destruct (atom_ok a x); [|done].
    specialize (IH (u +:+ String x "")).
    rewrite sapp_assoc, sapp_cons, sapp_nil_l in IH.
    rewrite sapp_length in IH. simpl in IH.
    by replace (p + (String.length u + 1)) with (S (p + String.length u))
      in IH by lia.
Qed.

(** A lazy star in a group. *)
Lemma rmatch_group_lazy_star a n p s c :
  rmatch (RGroup n (RLazyStar a)) (MState p s c) = lazy_from a n p "" s c.
Proof.
  pose proof (capture_lazy_star a n p "" s c) as H.
  rewrite sapp_nil_l in H. simpl in H. by rewrite Nat.add_0_r in H.
Qed.

(** A lazy plus in a group. *)
Lemma rmatch_group_lazy_plus a n p x s c :
  rmatch (RGroup n (RLazyPlus a)) (MState p (String x s) c)
  = if atom_ok a x then lazy_from a n (S p) (String x "") s c else [].
Proof.
  change (rmatch (RGroup n (RLazyPlus a)) (MState p (String x s) c))
    with (capture n (MState p (String x s) c) <$>
            ((if atom_ok a x then [MState (S p) s c] else [])
               ≫= λ st', lazy_star a (pos st') (rest st') (caps st'))).
  destruct (atom_ok a x); [|done].
  rewrite bind_singleton. simpl pos; simpl rest; simpl caps.
  pose proof (capture_lazy_star a n p (String x "") s c) as H.
  rewrite sapp_cons, sapp_nil_l in H. simpl in H.
  by rewrite Nat.add_1_r in H.
Qed.

Lemma rmatch_group_lazy_plus_nil a n p c :
  rmatch (RGroup n (RLazyPlus a)) (MState p "" c) = [].
Proof. reflexivity. Qed.

(** While the continuation fails, a lazy repetition takes one more
    character. *)
Lemma lazy_from_skip a n p u t v c k :
  all_chars (atom_ok a) t = true →
  (∀ t1 t2, t = t1 +:+ t2 → t2 ≠ "" →
     k (MState (p + String.length t1) (t2 +:+ v) (<[n := u +:+ t1]> c)) = []) →
  lazy_from a n p u (t +:+ v) c ≫= k
  = lazy_from a n (p + String.length t) (u +:+ t) v c ≫= k.
Proof.
  revert p u. induction t as [|x t IH]; intros p u Hall Hk.
  - by rewrite sapp_nil_l, sapp_nil_r, Nat.add_0_r.
  - simpl in Hall. apply andb_true_iff in Hall as [Hx Hall].
    rewrite sapp_cons. simpl lazy_from. rewrite Hx.
    rewrite bind_cons_nil.
    2:{ specialize (Hk "" (String x t)).
        rewrite sapp_nil_l, sapp_nil_r, Nat.add_0_r, sapp_cons in Hk.
        by apply Hk. }
    rewrite IH; [|done|].
    + simpl. by rewrite Nat.add_succ_r, sapp_assoc, sapp_cons, sapp_nil_l.
    + intros t1 t2 -> Ht2.
      specialize (Hk (String x t1) t2).
      rewrite sapp_cons in Hk. specialize (Hk eq_refl Ht2).
      simpl in Hk. rewrite Nat.add_succ_r in Hk.
      by rewrite sapp_assoc, sapp_cons, sapp_nil_l.
Qed.

Lemma lazy_from_starts a n p u s c :
  starts (lazy_from a n p u s c) (MState p s (<[n := u]> c)).
Proof. destruct s; apply starts_here. Qed.

(** A greedy repetition first takes all it can. *)
Lemma greedy_star_max a p u v c :
  all_chars (atom_ok a) u = true → run (atom_ok a) v = 0 →
  starts (greedy_star a p (u +:+ v) c) (MState (p + String.length u) v c).
Proof.
  revert p. induction u as [|x u IH]; intros p Hall Hv.
  - rewrite sapp_nil_l. simpl. rewrite Nat.add_0_r.
    destruct v as [|y v]; [apply starts_here|].
    simpl in *. destruct (atom_ok a y); [done | apply starts_here].
  - simpl in Hall. apply andb_true_iff in Hall as [Hx Hall].
    rewrite sapp_cons. simpl greedy_star. rewrite Hx.
    apply starts_app. simpl. rewrite Nat.add_succ_r. by apply IH.
Qed.

End ReFacts.

(** ** The repository pattern *)
Section RepositoryPattern.

Implicit Types (c : gmap nat string) (p n : nat) (s t u v w : string).

Lemma prefix_app_l w t s :
  String.prefix (w +:+ t) s = true → String.prefix w s = true.
Proof.
  revert s. induction w as [|x w IH]; intros s; [by destruct s|].
  rewrite sapp_cons. destruct s as [|y s]; simpl; [done|].
  destruct (ascii_dec x y); [apply IH | done].
Qed.

Lemma prefix_app_app w t s :
  String.prefix (w +:+ t) (w +:+ s) = String.prefix t s.
Proof.
  induction w as [|x w IH]; [done|].
  rewrite !sapp_cons. simpl. by destruct (ascii_dec x x).
Qed.

(** A literal word in a group, then a literal character. *)
Lemma word_char n w x s c :
  (capture n (MState 0 s c) <$> word w (MState 0 s c))
    ≫= rmatch (RAtom (ALit x))
  = if String.prefix (w +:+ String x "") s
    then [MState (S (String.length w)) (drop (S (String.length w)) s)
            (<[n := w]> c)]
    else [].
Proof.
  unfold word. simpl pos; simpl rest; simpl caps.
  destruct (String.prefix w s) eqn:Hw.
  - apply prefix_inv in Hw. set (s' := drop _ s) in Hw. clearbody s'. subst s.
    rewrite prefix_app_app, drop_app_length.
    rewrite fmap_cons, fmap_nil, bind_singleton. unfold capture.
    simpl pos; simpl rest; simpl caps.
    rewrite Nat.sub_0_r, take_app_length.
    destruct s' as [|y s']; [done|].
    rewrite drop_succ_app, rmatch_atom_cons. unfold atom_ok.
    simpl String.prefix.
    destruct (ascii_dec x y) as [->|Hne].
    + rewrite Ascii.eqb_refl. by destruct s'.
    + apply not_eq_sym in Hne. apply Ascii.eqb_neq in Hne. by rewrite Hne.
  - destruct (String.prefix (w +:+ String x "") s) eqn:Hwx; [|done].
    apply prefix_app_l in Hwx. congruence.
Qed.

Lemma tag_of_Some s tag :
  tag_of s = Some tag →
  tag ∈ provider_tags ∧ s = tag +:+ ":" +:+ drop (S (String.length tag)) s.
Proof.
  intros H. apply find_some in H as [Hin Hp]. split; [by apply list_elem_of_In|].
  apply prefix_inv in Hp. rewrite sapp_length in Hp. simpl in Hp.
  rewrite Nat.add_1_r in Hp. by rewrite sapp_assoc in Hp.
Qed.

Lemma tag_of_app tag s :
  tag ∈ provider_tags → tag_of (tag +:+ ":" +:+ s) = Some tag.
Proof.
  intros H. unfold provider_tags in H.
  do 4 (apply elem_of_cons in H as [->|H]; [by destruct s|]).
  by apply elem_of_nil in H.
Qed.

(** The optional provider tag of the pattern. *)
Lemma rmatch_tag s c :
  rmatch (RGroup 1 (RAlt (RLit "gist") (RAlt (RLit "bitbucket")
           (RAlt (RLit "gitlab") (RLit "github"))))
          ⋅ RAtom (ALit ":")) (MState 0 s c)
  = match tag_of s with
    | Some tag =>
        [MState (S (String.length tag)) (drop (S (String.length tag)) s)
           (<[1 := tag]> c)]
    | None => []
    end.
Proof.
  rewrite rmatch_seq.
  change (rmatch (RGroup 1 _) (MState 0 s c))
    with (capture 1 (MState 0 s c) <$>
            (word "gist" (MState 0 s c) ++ word "bitbucket" (MState 0 s c)
             ++ word "gitlab" (MState 0 s c) ++ word "github" (MState 0 s c))).
  rewrite !fmap_app, !bind_app, !word_char.
  unfold tag_of, provider_tags, List.find.
  change ("gist" +:+ ":") with "gist:".
  change ("bitbucket" +:+ ":") with "bitbucket:".
  change ("gitlab" +:+ ":") with "gitlab:".
  change ("github" +:+ ":") with "github:".
  destruct (String.prefix "gist:" s) eqn:H1.
  { apply prefix_inv in H1. set (s' := drop _ s) in H1. clearbody s'. by subst s. }
  destruct (String.prefix "bitbucket:" s) eqn:H2.
  { apply prefix_inv in H2. set (s' := drop _ s) in H2. clearbody s'. by subst s. }
  destruct (String.prefix "gitlab:" s) eqn:H3.
  { apply prefix_inv in H3. set (s' := drop _ s) in H3. clearbody s'. by subst s. }
  destruct (String.prefix "github:" s) eqn:H4; done.
Qed.

Lemma one_line_tag tag s :
  tag ∈ provider_tags → one_line (tag +:+ ":" +:+ s) = one_line s.
Proof.
  intros H. unfold provider_tags in H.
  do 4 (apply elem_of_cons in H as [->|H]; [reflexivity|]).
  by apply elem_of_nil in H.
Qed.

(** The lazy identifier followed by [$]: the identifier stops at the end of
    the subject, or before the line feed that ends it. *)
Lemma lazy_from_any_eol p u s c :
  lazy_from AAny 2 p u s c ≫= rmatch REol
  = if one_line s
    then [MState (p + String.length (chomp s))
            (drop (String.length (chomp s)) s) (<[2 := u +:+ chomp s]> c)]
    else [].
Proof.
  revert p u. induction s as [|x s IH]; intros p u.
  - simpl. by rewrite sapp_nil_r, Nat.add_0_r.
  - simpl lazy_from. simpl one_line. simpl chomp. unfold atom_ok.
    destruct (Ascii.eqb x newline) eqn:Hx; simpl negb; simpl andb.
    + cbv iota. rewrite bind_singleton, rmatch_eol. simpl rest.
      destruct s; simpl; [|done].
      by rewrite Hx, sapp_nil_r, Nat.add_0_r.
    + cbv iota. rewrite bind_cons_nil.
      2:{ rewrite rmatch_eol. simpl. rewrite Hx. by destruct s. }
      rewrite IH. destruct (one_line s); [|done].
      simpl. by rewrite Nat.add_succ_r, sapp_assoc, sapp_cons, sapp_nil_l.
Qed.

Lemma rmatch_repository_tail p s c :
  rmatch (RGroup 2 (RLazyStar AAny) ⋅ REol) (MState p s c)
  = if one_line s
    then [MState (p + String.length (chomp s))
            (drop (String.length (chomp s)) s) (<[2 := chomp s]> c)]
    else [].
Proof.
  rewrite rmatch_seq, rmatch_group_lazy_star, lazy_from_any_eol.
  by rewrite sapp_nil_l.
Qed.

(** What [re.match(REPOSITORY_PATTERN, s)] returns. *)
Lemma re_match_repository s :
  re_match REPOSITORY_PATTERN s
  = if one_line s
    then Some (match tag_of s with
               | Some tag =>
                   <[2 := chomp (drop (S (String.length tag)) s)]>
                     (<[1 := tag]> ∅)
               | None => <[2 := chomp s]> ∅
               end)
    else None.
Proof.
  unfold re_match, REPOSITORY_PATTERN.
  rewrite rmatch_seq, rmatch_bol, bind_singleton.
  rewrite rmatch_seq, rmatch_opt, bind_app, bind_singleton, rmatch_tag.
  rewrite (rmatch_repository_tail 0 s).
  destruct (tag_of s) as [tag|] eqn:Htag.
  - apply tag_of_Some in Htag as [Hin Hs].
    assert (Hol : one_line s = one_line (drop (S (String.length tag)) s)).
    { rewrite Hs at 1. by apply one_line_tag. }
    rewrite bind_singleton, rmatch_repository_tail, Hol.
    destruct (one_line (drop (S (String.length tag)) s)); reflexivity.
  - destruct (one_line s); reflexivity.
Qed.

End RepositoryPattern.

(** ** The author pattern *)
Section AuthorPattern.

Implicit Types (c : gmap nat string) (p q n : nat) (s t u v r : string).
Implicit Types (k : mstate → list mstate).

Local Abbreviation WS := (RStar (ASet [" "%char; tab])).
Local Abbreviation EMAIL :=
  (RAtom (ALit "<") ⋅ RGroup 2 (RLazyPlus (ANotSet [">"; "("]%char))
   ⋅ RAtom (ALit ">")).
Local Abbreviation URL :=
  (RAtom (ALit "(") ⋅ RGroup 3 (RLazyPlus (ANotSet [")"]%char))
   ⋅ RAtom (ALit ")")).
Local Abbreviation K3 := (RAlt URL REol).
Local Abbreviation K2 := (ROpt EMAIL ⋅ WS ⋅ K3).
Local Abbreviation K := (WS ⋅ K2).

Lemma free_of_cons cs x s :
  free_of cs (String x s) = negb (mem x cs) && free_of cs s.
Proof. reflexivity. Qed.

Lemma inside_cons x t r : inside (String x t) r → blank x = true → inside t r.
Proof.
  intros (_ & Hfree & Hend & Hnl) Hx.
  assert (t ≠ "") as Ht.
  { intros ->. unfold ends_with in Hend. simpl in Hend. congruence. }
  unfold free_of in Hfree. simpl in Hfree.
  apply andb_true_iff in Hfree as [_ Hfree].
  unfold ends_with in *. simpl in Hend, Hnl.
  destruct t; [done|]. by repeat split.
Qed.

Lemma inside_suffix t1 t2 r : inside (t1 +:+ t2) r → t2 ≠ "" → inside t2 r.
Proof.
  intros (_ & Hfree & Hend & Hnl) Ht2.
  unfold free_of in Hfree. rewrite all_chars_app in Hfree.
  apply andb_true_iff in Hfree as [_ Hfree].
  unfold ends_with in *. rewrite last_char_app in Hend, Hnl by done.
  by repeat split.
Qed.

Lemma inside_head x t r :
  inside (String x t) r →
  Ascii.eqb x "<" = false ∧ Ascii.eqb x "(" = false
  ∧ at_end (String x (t +:+ r)) = false.
Proof.
  intros (_ & Hfree & _ & Hnl).
  unfold free_of in Hfree. simpl in Hfree.
  apply andb_true_iff in Hfree as [Hx _].
  apply negb_true_iff in Hx. unfold mem in Hx. simpl in Hx.
  apply orb_false_iff in Hx as [H1 Hx].
  apply orb_false_iff in Hx as [H2 _].
  repeat split; [done..|].
  simpl. destruct (t +:+ r) eqn:E; [|done].
  apply sapp_eq_nil in E as [-> ->]. by apply Hnl.
Qed.

Lemma url_or_end_fail x t r q c :
  inside (String x t) r → rmatch K3 (MState q (String x (t +:+ r)) c) = [].
Proof.
  intros H. apply inside_head in H as (_ & Hp & Hend).
  rewrite rmatch_alt, rmatch_seq, rmatch_atom_cons, rmatch_eol.
  simpl rest. rewrite Hend. unfold atom_ok. by rewrite Hp.
Qed.

(** The blanks of a display name lead nowhere while the name goes on. *)
Lemma blanks_fail k r c :
  (∀ t q, inside t r → k (MState q (t +:+ r) c) = []) →
  ∀ t q, inside t r → rmatch WS (MState q (t +:+ r) c) ≫= k = [].
Proof.
  intros Hk. induction t as [|x t IH]; intros q Ht; [by destruct Ht|].
  rewrite rmatch_star, sapp_cons, greedy_star_cons.
  change (atom_ok (ASet [" "%char; tab]) x) with (blank x).
  destruct (blank x) eqn:Hx.
  - rewrite bind_app, bind_singleton.
    pose proof (IH (S q) (inside_cons _ _ _ Ht Hx)) as IH'.
    rewrite rmatch_star in IH'. rewrite IH'.
    rewrite <- sapp_cons. by rewrite Hk.
  - rewrite bind_singleton. rewrite <- sapp_cons. by rewrite Hk.
Qed.

Lemma email_fail x t r q c :
  inside (String x t) r → rmatch EMAIL (MState q (String x (t +:+ r)) c) = [].
Proof.
  intros H. apply inside_head in H as (Hlt & _ & _).
  rewrite rmatch_seq, rmatch_atom_cons. unfold atom_ok. by rewrite Hlt.
Qed.

Lemma blanks_url_or_end_fail t r q c :
  inside t r → rmatch (WS ⋅ K3) (MState q (t +:+ r) c) = [].
Proof.
  rewrite rmatch_seq. revert t q. apply blanks_fail. intros [|x t] q Ht.
  - by destruct Ht.
  - rewrite sapp_cons. by apply url_or_end_fail.
Qed.

Lemma author_tail_fail t r q c :
  inside t r → rmatch K (MState q (t +:+ r) c) = [].
Proof.
  rewrite rmatch_seq. revert t q. apply blanks_fail. intros t q Ht.
  rewrite rmatch_seq, rmatch_opt, bind_app, bind_singleton.
  rewrite blanks_url_or_end_fail by done.
  destruct t as [|x t]; [by destruct Ht|].
  rewrite sapp_cons. by rewrite email_fail.
Qed.

(** A bracketed group: the opening character, a lazy non-empty body that
    cannot contain the closing character, the closing character. *)
Lemma rmatch_bracket o cl a n p body v c :
  body ≠ "" → all_chars (atom_ok a) body = true → atom_ok a cl = false →
  rmatch (RAtom (ALit o) ⋅ RGroup n (RLazyPlus a) ⋅ RAtom (ALit cl))
    (MState p (String o (body +:+ String cl v)) c)
  = [MState (S (S (p + String.length body))) v (<[n := body]> c)].
Proof.
  intros Hne Hall Hcl. destruct body as [|x body]; [done|].
  simpl in Hall. apply andb_true_iff in Hall as [Hx Hall].
  rewrite rmatch_seq, rmatch_atom_cons. unfold atom_ok at 1.
  rewrite Ascii.eqb_refl, bind_singleton, rmatch_seq, sapp_cons.
  rewrite rmatch_group_lazy_plus, Hx.
  rewrite lazy_from_skip; [|done|].
  - simpl lazy_from. rewrite Hcl, bind_singleton, rmatch_atom_cons.
    unfold atom_ok. rewrite Ascii.eqb_refl. simpl String.length.
    by rewrite Nat.add_succ_r.
  - intros t1 [|y t2] -> Ht2; [done|].
    rewrite sapp_cons, rmatch_atom_cons. unfold atom_ok at 1.
    rewrite all_chars_app in Hall. apply andb_true_iff in Hall as [_ Hall].
    simpl in Hall. apply andb_true_iff in Hall as [Hy _].
    destruct (Ascii.eqb_spec y cl) as [->|]; [congruence | done].
Qed.

(** Once the display name is read, the first match of the pattern is the
    first match of what follows the name. *)
Lemma author_name_first name r final :
  inside name r →
  starts (rmatch K (MState (String.length name) r (<[1 := name]> ∅))) final →
  re_match AUTHOR_PATTERN (name +:+ r) = Some (caps final).
Proof.
  intros Hname Hfinal. unfold re_match, AUTHOR_PATTERN.
  rewrite rmatch_seq, rmatch_bol, bind_singleton.
  rewrite rmatch_seq, rmatch_opt, bind_app.
  erewrite starts_head; [done|]. apply starts_app.
  destruct name as [|x name]; [by destruct Hname|].
  rewrite sapp_cons, rmatch_group_lazy_plus.
  pose proof Hname as (_ & Hfree & _).
  rewrite free_of_cons in Hfree.
  apply andb_true_iff in Hfree as [Hx Hfree].
  unfold atom_ok at 1. rewrite Hx.
  rewrite lazy_from_skip; [|exact Hfree|].
  - eapply starts_bind; [apply lazy_from_starts|].
    by rewrite sapp_cons, sapp_nil_l.
  - intros t1 t2 -> Ht2. apply author_tail_fail.
    apply (inside_suffix (String x t1)); [|done]. by rewrite sapp_cons.
Qed.

(** What [re.match(AUTHOR_PATTERN, _)] returns on
    ["Display Name <email> (url)"]. *)
Lemma re_match_author_full name sep1 email sep2 url :
  name ≠ "" → free_of ["<"; "("]%char name = true →
  ends_with blank name = false →
  all_chars blank sep1 = true →
  email ≠ "" → free_of [">"; "("]%char email = true →
  all_chars blank sep2 = true →
  url ≠ "" → free_of [")"]%char url = true →
  re_match AUTHOR_PATTERN
    (name +:+ sep1 +:+ "<" +:+ email +:+ ">" +:+ sep2 +:+ "(" +:+ url +:+ ")")
  = Some (<[3 := url]> (<[2 := email]> (<[1 := name]> ∅))).
Proof.
  intros Hn Hfree Hend Hs1 He Hefree Hs2 Hu Hufree.
  change ("<" +:+ email +:+ ">" +:+ sep2 +:+ "(" +:+ url +:+ ")")
    with (String "<" (email +:+ String ">"
            (sep2 +:+ String "(" (url +:+ String ")" "")))).
  set (final := MState
    (S (S (S (S (String.length name + String.length sep1 + String.length email)
       + String.length sep2) + String.length url))) ""
    (<[3 := url]> (<[2 := email]> (<[1 := name]> ∅)))).
  apply (author_name_first name _ final).
  { repeat split; try done. intros H. by apply sapp_eq_nil in H as [_ ?]. }
  rewrite rmatch_seq, rmatch_star.
  eapply starts_bind; [by apply greedy_star_max|].
  rewrite rmatch_seq, rmatch_opt.
  eapply starts_bind.
  { apply starts_app. rewrite rmatch_bracket by done. apply starts_here. }
  rewrite rmatch_seq, rmatch_star.
  eapply starts_bind; [by apply greedy_star_max|].
  rewrite rmatch_alt. apply starts_app.
  rewrite rmatch_bracket by done. apply starts_here.
Qed.

(** What [re.match(AUTHOR_PATTERN, _)] returns on a bare display name. *)
Lemma re_match_author_plain s :
  s ≠ "" → free_of ["<"; "("]%char s = true →
  ends_with (λ x, blank x || Ascii.eqb x newline) s = false →
  re_match AUTHOR_PATTERN s = Some (<[1 := s]> ∅).
Proof.
  intros Hne Hfree Hend.
  rewrite <- (sapp_nil_r s) at 1.
  change (<[1 := s]> ∅)
    with (caps (MState (String.length s) "" (<[1 := s]> ∅))).
  apply author_name_first; [|apply starts_here].
  unfold inside, ends_with in *. destruct (last_char s); [|by repeat split].
  apply orb_false_iff in Hend as [? ?]. by repeat split.
Qed.

End AuthorPattern.

(** ** The person parser *)
Section PersonParser.

Implicit Types (d r : gmap string value) (s : string).

Lemma structured_true d :
  is_Some (d !! "email") ∨ is_Some (d !! "url") →
  bool_decide (({["url"; "email"]} : gset string) ∩ dom d ≠ ∅) = true.
Proof.
  intros H. apply bool_decide_eq_true.
  destruct H as [H|H]; apply elem_of_dom in H; set_solver.
Qed.

Lemma structured_false d :
  d !! "email" = None → d !! "url" = None →
  bool_decide (({["url"; "email"]} : gset string) ∩ dom d ≠ ∅) = false.
Proof.
  intros He Hu. apply bool_decide_eq_false.
  apply not_elem_of_dom in He, Hu. intros H. apply H.
  apply set_eq. intros key. rewrite elem_of_intersection, elem_of_union.
  rewrite !elem_of_singleton. split; [|by intros ?%elem_of_empty].
  by intros [[->| ->] ?].
Qed.

(** The person parser on an object that is not already structured: the
    outcome is decided by the match of its name against the pattern. *)
Lemma parse_person_string d s :
  d !! "name" = Some (VStr s) → d !! "email" = None → d !! "url" = None →
  _parse_person (VDict d)
  = match re_match AUTHOR_PATTERN s with
    | None => Err (ValueError ("Invalid author name: " +:+ s))
    | Some m =>
        match group m 2 with
        | Some e => Ok (VDict (<["email" := VStr e]> {["name" := of_group (group m 1)]}))
        | None => Ok (VDict {["name" := of_group (group m 1)]})
        end
    end.
Proof.
  intros Hn He Hu. unfold _parse_person. simpl.
  rewrite (structured_false d He Hu). unfold getitem. by rewrite Hn.
Qed.

End PersonParser.

(** C1: for every author or contributor object that has an [email] or a
    [url] key (and a [name]), the person parser returns a record whose
    [name] is the object's [name] verbatim, whose [email] is the object's
    [email] when it has one and is absent otherwise, and which has no other
    key, [url] in particular. *)
Theorem parse_person_structured (d : gmap string value) (name : value) :
  is_Some (d !! "email") ∨ is_Some (d !! "url") →
  d !! "name" = Some name →
  ∃ r : gmap string value,
    _parse_person (VDict d) = Ok (VDict r)
    ∧ r !! "name" = Some name
    ∧ r !! "email" = d !! "email"
    ∧ (is_Some (r !! "email") ↔ is_Some (d !! "email"))
    ∧ r !! "url" = None
    ∧ ∀ key, key ≠ "name" → key ≠ "email" → r !! key = None.
Proof.
  intros Hs Hn. unfold _parse_person. simpl.
  rewrite (structured_true d Hs). unfold getitem. rewrite Hn. simpl.
  destruct (d !! "email") as [e|] eqn:He; simpl; eexists; (split; [done|]);
    repeat split; intros; by simplify_map_eq.
Qed.

Lemma parse_person_structured_witness :
  let d : gmap string value :=
    {[ "name" := VStr "Jane Doe"; "email" := VStr "jane@example.com";
       "url" := VStr "https://jane.dev" ]} in
  (is_Some (d !! "email") ∨ is_Some (d !! "url"))
  ∧ d !! "name" = Some (VStr "Jane Doe")
  ∧ ∃ r : gmap string value,
      _parse_person (VDict d) = Ok (VDict r)
      ∧ r !! "name" = Some (VStr "Jane Doe")
      ∧ r !! "email" = d !! "email"
      ∧ (is_Some (r !! "email") ↔ is_Some (d !! "email"))
      ∧ r !! "url" = None
      ∧ ∀ key, key ≠ "name" → key ≠ "email" → r !! key = None.
Proof.
  intros d.
  assert (H1 : is_Some (d !! "email") ∨ is_Some (d !! "url")).
  { left. by eexists. }
  assert (H2 : d !! "name" = Some (VStr "Jane Doe")) by reflexivity.
  exact (conj H1 (conj H2 (parse_person_structured d _ H1 H2))).
Defined.

(** C2 (amended): for every author name of the form
    ["Display Name <email> (url)"] (a display name that is not empty, has no
    [<] or [(] and does not end with a blank; blanks between the segments; a
    non-empty email without [>] or [(]; a non-empty url without [)]) the
    person parser returns the display name and the bracketed email and drops
    the parenthetical suffix; and for every non-empty name that has no [<] or
    [(] and does not end with a blank or a line feed it returns the whole
    string as the name, with no email. *)
Theorem parse_person_author_string :
  (∀ (d : gmap string value) name sep1 email sep2 url,
     d !! "name" = Some (VStr (name +:+ sep1 +:+ "<" +:+ email +:+ ">"
                                +:+ sep2 +:+ "(" +:+ url +:+ ")")) →
     d !! "email" = None → d !! "url" = None →
     name ≠ "" → free_of ["<"; "("]%char name = true →
     ends_with blank name = false →
     all_chars blank sep1 = true →
     email ≠ "" → free_of [">"; "("]%char email = true →
     all_chars blank sep2 = true →
     url ≠ "" → free_of [")"]%char url = true →
     _parse_person (VDict d)
     = Ok (VDict (<["email" := VStr email]> {["name" := VStr name]})))
  ∧ (∀ (d : gmap string value) s,
       d !! "name" = Some (VStr s) →
       d !! "email" = None → d !! "url" = None →
       s ≠ "" → free_of ["<"; "("]%char s = true →
       ends_with (λ c, blank c || Ascii.eqb c newline) s = false →
       _parse_person (VDict d) = Ok (VDict {["name" := VStr s]})).
Proof.
  split.
  - intros d name sep1 email sep2 url Hd He Hu **.
    rewrite (parse_person_string d _ Hd He Hu).
    by rewrite re_match_author_full.
  - intros d s Hd He Hu **.
    rewrite (parse_person_string d _ Hd He Hu).
    by rewrite re_match_author_plain.
Qed.

Lemma parse_person_author_string_witness :
  _parse_person
    (VDict {["name" := VStr "Jane Doe <jane@example.com> (https://jane.dev)"]})
  = Ok (VDict (<["email" := VStr "jane@example.com"]>
                 {["name" := VStr "Jane Doe"]}))
  ∧ _parse_person (VDict {["name" := VStr "Jane Doe"]})
    = Ok (VDict {["name" := VStr "Jane Doe"]}).
Proof.
  split.
  - apply (proj1 parse_person_author_string _
             "Jane Doe" " " "jane@example.com" " " "https://jane.dev");
      first [reflexivity | discriminate].
  - apply (proj2 parse_person_author_string _ "Jane Doe");
      first [reflexivity | discriminate].
Defined.

(** C2, as stated, fails on a name that ends with a blank: it has no
    angle-bracket or parenthetical segment, and the parser does not return
    the whole string as the name. *)
Lemma parse_person_trailing_blank :
  free_of ["<"; ">"; "("; ")"]%char "Jane Doe " = true
  ∧ _parse_person (VDict {["name" := VStr "Jane Doe "]})
    = Ok (VDict {["name" := VStr "Jane Doe"]})
  ∧ _parse_person (VDict {["name" := VStr "Jane Doe "]})
    ≠ Ok (VDict {["name" := VStr "Jane Doe "]}).
Proof.
  assert (H : _parse_person (VDict {["name" := VStr "Jane Doe "]})
              = Ok (VDict {["name" := VStr "Jane Doe"]})).
  { by rewrite (parse_person_string _ "Jane Doe "). }
  split; [done|]. split; [done|]. rewrite H. intros H'.
  apply (f_equal (λ r : result value,
           match r with inr (VDict m) => m !! "name" | _ => None end)) in H'.
  simpl in H'. by rewrite !lookup_singleton_eq in H'.
Qed.

(** C3 (the code departs from it): when the author string matches the
    pattern but captures no display name, the record's [name] is [None],
    not a string. *)
Theorem parse_person_name_none :
  _parse_person (VDict {["name" := VStr "<jane@example.com>"]})
  = Ok (VDict (<["email" := VStr "jane@example.com"]> {["name" := VNone]})).
Proof. by rewrite (parse_person_string _ "<jane@example.com>"). Qed.

(** C9: for every author name that fails to match the author pattern, the
    person parser fails with a [ValueError] whose message names the
    offending string; for every name that matches, it returns a record. *)
Theorem parse_person_value_error (d : gmap string value) (s : string) :
  d !! "name" = Some (VStr s) → d !! "email" = None → d !! "url" = None →
  (re_match AUTHOR_PATTERN s = None →
   _parse_person (VDict d) = Err (ValueError ("Invalid author name: " +:+ s)))
  ∧ (is_Some (re_match AUTHOR_PATTERN s) →
     ∃ r : gmap string value, _parse_person (VDict d) = Ok (VDict r)).
Proof.
  intros Hd He Hu. rewrite (parse_person_string d s Hd He Hu). split.
  - by intros ->.
  - intros [m ->]. destruct (group m 2); by eexists.
Qed.

Lemma parse_person_value_error_witness :
  let d : gmap string value := {["name" := VStr "Jane (Doe"]} in
  d !! "name" = Some (VStr "Jane (Doe")
  ∧ d !! "email" = None ∧ d !! "url" = None
  ∧ re_match AUTHOR_PATTERN "Jane (Doe" = None
  ∧ _parse_person (VDict d)
    = Err (ValueError "Invalid author name: Jane (Doe").
Proof.
  intros d.
  assert (H1 : d !! "name" = Some (VStr "Jane (Doe")) by reflexivity.
  assert (H2 : d !! "email" = None) by reflexivity.
  assert (H3 : d !! "url" = None) by reflexivity.
  assert (H4 : re_match AUTHOR_PATTERN "Jane (Doe" = None) by reflexivity.
  exact (conj H1 (conj H2 (conj H3 (conj H4
    (proj1 (parse_person_value_error d _ H1 H2 H3) H4))))).
Defined.

(** ** The repository resolver *)
Section RepositoryResolver.

Variable urljoin : string → string → result string.

Implicit Types (s tag base ident : string).

Lemma one_line_no_newline s :
  has_char newline s = false → one_line s = true ∧ chomp s = s.
Proof.
  induction s as [|x s IH]; [done|]. simpl. intros H.
  apply orb_false_iff in H as [Hx Hs]. rewrite Hx. simpl.
  destruct (IH Hs) as [-> ->]. done.
Qed.

Lemma repository_table_tags tag base :
  REPOSITORY_TABLE !! tag = Some base → tag ∈ provider_tags.
Proof.
  unfold REPOSITORY_TABLE, provider_tags. intros H.
  repeat (apply lookup_insert_Some in H as [[<- _]|[_ H]];
          [set_solver|]).
  apply lookup_singleton_Some in H as [<- _]. set_solver.
Qed.

Lemma tag_of_None s :
  (∀ tag, tag ∈ provider_tags → String.prefix (tag +:+ ":") s = false) →
  tag_of s = None.
Proof.
  intros H. destruct (tag_of s) as [tag|] eqn:E; [|done].
  apply find_some in E as [Hin Hp]. apply list_elem_of_In in Hin.
  by rewrite (H _ Hin) in Hp.
Qed.

(** The resolver on a string: the match decides between the error and the
    join of the provider's base URL with the identifier. *)
Lemma parse_repository_string s :
  _parse_repository urljoin (VStr s)
  = if one_line s
    then
      match tag_of s with
      | Some tag =>
          match REPOSITORY_TABLE !! tag with
          | Some base =>
              VStr <$> urljoin base (chomp (drop (S (String.length tag)) s))
          | None => Err (KeyError tag)
          end
      | None => VStr <$> urljoin "https://github.com" (chomp s)
      end
    else Err (ValueError ("Invalid repository string: " +:+ s)).
Proof.
  unfold _parse_repository. rewrite re_match_repository.
  destruct (one_line s); [|done].
  destruct (tag_of s) as [tag|]; unfold group.
  - rewrite lookup_insert_ne, lookup_insert_eq by done. simpl.
    by rewrite lookup_insert_eq.
  - rewrite lookup_insert_ne, lookup_empty by done. simpl.
    by rewrite lookup_insert_eq.
Qed.

Lemma parse_repository_tagged tag base ident :
  REPOSITORY_TABLE !! tag = Some base → has_char newline ident = false →
  _parse_repository urljoin (VStr (tag +:+ ":" +:+ ident))
  = VStr <$> urljoin base ident.
Proof.
  intros Hbase Hnl. pose proof (repository_table_tags _ _ Hbase) as Hin.
  rewrite parse_repository_string, one_line_tag, tag_of_app by done.
  destruct (one_line_no_newline _ Hnl) as [-> Hc]. rewrite Hbase.
  change (tag +:+ ":" +:+ ident) with (tag +:+ String ":" ident).
  by rewrite drop_succ_app, Hc.
Qed.

Lemma parse_repository_untagged s :
  has_char newline s = false →
  (∀ tag, tag ∈ provider_tags → String.prefix (tag +:+ ":") s = false) →
  _parse_repository urljoin (VStr s) = VStr <$> urljoin "https://github.com" s.
Proof.
  intros Hnl Htag. rewrite parse_repository_string, tag_of_None by done.
  by destruct (one_line_no_newline _ Hnl) as [-> ->].
Qed.

End RepositoryResolver.

Lemma rbind_ok {A B : Type} (a : A) (f : A → result B) : rbind (Ok a) f = f a.
Proof. reflexivity. Qed.

(** ** [urljoin] against a provider's base URL *)
Section UrlJoin.

Variables check_bracketed_netloc check_nfkc : string → option string.

Local Abbreviation urlparse :=
  (UrlParse.urlparse check_bracketed_netloc check_nfkc).
Local Abbreviation urljoin :=
  (cpython_urljoin check_bracketed_netloc check_nfkc).

Lemma urlparse_github :
  urlparse "https://github.com" ""
  = Ok (UrlParse.ParseResult "https" "github.com" "" "" "" "").
Proof. vm_compute. reflexivity. Qed.

(** A reference with a scheme other than the base's, or with a network
    location, replaces the base. *)
Lemma urljoin_absolute url u :
  url ≠ "" → urlparse url "https" = Ok u →
  UrlParse.scheme u ≠ "https" ∨ UrlParse.netloc u ≠ "" →
  urljoin "https://github.com" url
  = Ok (if String.eqb (UrlParse.scheme u) "https"
        then UrlParse.urlunparse u else url).
Proof.
  intros Hne Hu Habs. unfold cpython_urljoin, UrlParse.urljoin.
  destruct url as [|x url]; [done|]. simpl is_empty. cbv iota.
  rewrite urlparse_github, rbind_ok. cbv beta.
  simpl UrlParse.scheme at 1. rewrite Hu, rbind_ok. cbv beta.
  simpl UrlParse.scheme at 2 4.
  destruct (String.eqb_spec (UrlParse.scheme u) "https") as [Hs|Hs];
    [|done].
  rewrite Hs. simpl negb. simpl orb. cbv iota.
  destruct Habs as [?|Hn]; [done|].
  change (UrlParse.str_mem "https" UrlParse.uses_netloc) with true.
  by destruct (UrlParse.netloc u).
Qed.

End UrlJoin.

(** C4 (amended): the repository resolver maps ["github:foo/bar"] and the
    untagged ["foo/bar"] to ["https://github.com/foo/bar"] and
    ["gitlab:baz/qux"] to ["https://gitlab.com/baz/qux"]; in general, for a
    known provider tag followed by a colon and an identifier that contains
    no line feed, the result is [urljoin] of the provider's base URL and
    the identifier. *)
Theorem parse_repository_shorthand :
  (∀ chk1 chk2,
     let urljoin := cpython_urljoin chk1 chk2 in
     _parse_repository urljoin (VStr "github:foo/bar")
     = Ok (VStr "https://github.com/foo/bar")
     ∧ _parse_repository urljoin (VStr "foo/bar")
       = Ok (VStr "https://github.com/foo/bar")
     ∧ _parse_repository urljoin (VStr "gitlab:baz/qux")
       = Ok (VStr "https://gitlab.com/baz/qux"))
  ∧ (∀ urljoin tag base ident,
       REPOSITORY_TABLE !! tag = Some base →
       has_char newline ident = false →
       _parse_repository urljoin (VStr (tag +:+ ":" +:+ ident))
       = VStr <$> urljoin base ident).
Proof.
  split.
  - intros chk1 chk2 urljoin. repeat split; vm_compute; reflexivity.
  - intros. by apply parse_repository_tagged.
Qed.

Lemma parse_repository_shorthand_witness :
  REPOSITORY_TABLE !! "bitbucket" = Some "https://bitbucket.org"
  ∧ has_char newline "team/repo" = false
  ∧ _parse_repository (cpython_urljoin no_check no_check)
      (VStr "bitbucket:team/repo")
    = Ok (VStr "https://bitbucket.org/team/repo").
Proof.
  assert (H1 : REPOSITORY_TABLE !! "bitbucket" = Some "https://bitbucket.org")
    by reflexivity.
  assert (H2 : has_char newline "team/repo" = false) by reflexivity.
  exact (conj H1 (conj H2
    (proj2 parse_repository_shorthand (cpython_urljoin no_check no_check)
       "bitbucket" "https://bitbucket.org" "team/repo" H1 H2))).
Defined.

(** C4, as stated, fails on a tagged string whose identifier has a line
    feed inside: the resolver raises instead of joining. *)
Lemma parse_repository_tagged_line_feed :
  let urljoin := cpython_urljoin no_check no_check in
  let ident := "foo" +:+ String newline "bar" in
  REPOSITORY_TABLE !! "github" = Some "https://github.com"
  ∧ _parse_repository urljoin (VStr ("github:" +:+ ident))
    = Err (ValueError ("Invalid repository string: github:" +:+ ident))
  ∧ _parse_repository urljoin (VStr ("github:" +:+ ident))
    ≠ VStr <$> urljoin "https://github.com" ident.
Proof.
  intros urljoin ident. split; [reflexivity|].
  assert (H : _parse_repository urljoin (VStr ("github:" +:+ ident))
              = Err (ValueError ("Invalid repository string: github:" +:+ ident)))
    by (vm_compute; reflexivity).
  split; [exact H|]. rewrite H. vm_compute. discriminate.
Qed.

(** C5 (amended): for every repository string that contains no line feed
    and does not start with one of the four provider tags followed by a
    colon, the resolver joins the whole string to the github base URL; and
    under [urljoin] a reference that has its own network location, or a
    scheme other than [https], replaces the base. *)
Theorem parse_repository_default_provider :
  (∀ urljoin s,
     has_char newline s = false →
     (∀ tag, tag ∈ provider_tags → String.prefix (tag +:+ ":") s = false) →
     _parse_repository urljoin (VStr s)
     = VStr <$> urljoin "https://github.com" s)
  ∧ (∀ chk1 chk2 url u,
       url ≠ "" →
       UrlParse.urlparse chk1 chk2 url "https" = Ok u →
       UrlParse.scheme u ≠ "https" ∨ UrlParse.netloc u ≠ "" →
       cpython_urljoin chk1 chk2 "https://github.com" url
       = Ok (if String.eqb (UrlParse.scheme u) "https"
             then UrlParse.urlunparse u else url)).
Proof.
  split.
  - intros. by apply parse_repository_untagged.
  - intros. by apply urljoin_absolute.
Qed.

Lemma parse_repository_default_provider_witness :
  let urljoin := cpython_urljoin no_check no_check in
  _parse_repository urljoin (VStr "git+ssh://git@example.com/foo/bar.git")
  = Ok (VStr "git+ssh://git@example.com/foo/bar.git")
  ∧ urljoin "https://github.com" "https://example.com/repo"
    = Ok "https://example.com/repo".
Proof.
  intros urljoin. split.
  - rewrite (proj1 parse_repository_default_provider urljoin);
      [vm_compute; reflexivity | reflexivity |].
    intros tag H. unfold provider_tags in H.
    do 4 (apply elem_of_cons in H as [->|H]; [reflexivity|]).
    by apply elem_of_nil in H.
  - unfold urljoin.
    rewrite (proj2 parse_repository_default_provider no_check no_check
               "https://example.com/repo"
               (UrlParse.ParseResult "https" "example.com" "/repo" "" "" ""));
      [reflexivity | discriminate | reflexivity | by right].
Defined.

(** C5, as stated, fails on an untagged string with a line feed inside: the
    resolver raises instead of joining the string to the github base. *)
Lemma parse_repository_untagged_line_feed :
  let urljoin := cpython_urljoin no_check no_check in
  let s := "foo/bar" +:+ String newline "baz" in
  (∀ tag, tag ∈ provider_tags → String.prefix (tag +:+ ":") s = false)
  ∧ _parse_repository urljoin (VStr s)
    = Err (ValueError ("Invalid repository string: " +:+ s))
  ∧ urljoin "https://github.com" s = Ok "https://github.com/foo/barbaz".
Proof.
  intros urljoin s. split; [|split; vm_compute; reflexivity].
  intros tag H. unfold provider_tags in H.
  do 4 (apply elem_of_cons in H as [->|H]; [reflexivity|]).
  by apply elem_of_nil in H.
Qed.

(** C6 (amended): the repository pattern matches a string exactly when every
    line feed of the string is its last character.  On such a string the
    resolver's own error branch is not taken and its outcome is that of
    [urljoin]; on any other string the resolver raises a [ValueError] that
    names the string. *)
Theorem repository_pattern_match (s : string) :
  (is_Some (re_match REPOSITORY_PATTERN s) ↔ one_line s = true)
  ∧ (one_line s = true →
     ∀ urljoin, ∃ base ident,
       _parse_repository urljoin (VStr s) = VStr <$> urljoin base ident)
  ∧ (one_line s = false →
     ∀ urljoin,
       _parse_repository urljoin (VStr s)
       = Err (ValueError ("Invalid repository string: " +:+ s))).
Proof.
  split; [|split].
  - rewrite re_match_repository. destruct (one_line s).
    + split; [done | by eexists].
    + split; [by intros [? ?] | done].
  - intros H urljoin. rewrite parse_repository_string, H.
    destruct (tag_of s) as [tag|] eqn:Htag; [|by eexists _, _].
    apply tag_of_Some in Htag as [Hin _]. unfold provider_tags in Hin.
    do 4 (apply elem_of_cons in Hin as [->|Hin]; [by eexists _, _|]).
    by apply elem_of_nil in Hin.
  - intros H urljoin. by rewrite parse_repository_string, H.
Qed.

Lemma repository_pattern_match_witness :
  let urljoin := cpython_urljoin no_check no_check in
  let s := "foo" +:+ String newline "bar" in
  one_line s = false
  ∧ _parse_repository urljoin (VStr s)
    = Err (ValueError ("Invalid repository string: " +:+ s)).
Proof.
  intros urljoin s.
  assert (H : one_line s = false) by reflexivity.
  exact (conj H (proj2 (proj2 (repository_pattern_match s)) H urljoin)).
Defined.

(** C6, as stated, fails: the pattern does not match a string with a line
    feed inside, and the resolver raises on it. *)
Lemma repository_pattern_no_match :
  let s := "foo" +:+ String newline "bar" in
  re_match REPOSITORY_PATTERN s = None
  ∧ _parse_repository (cpython_urljoin no_check no_check) (VStr s)
    = Err (ValueError ("Invalid repository string: " +:+ s)).
Proof. split; vm_compute; reflexivity. Qed.

(** ** The bugs resolver and [update] *)
Section Update.

Variable urljoin : string → string → result string.

Implicit Types (package metadata : gmap string value) (key src dst : string).

Lemma M_bind_run {A B : Type} (m : M A) (f : A → M B) metadata :
  (m ≫= f) metadata
  = match m metadata with
    | (metadata', inr a) => f a metadata'
    | (metadata', inl e) => (metadata', inl e)
    end.
Proof. reflexivity. Qed.

Lemma bind_run_ok {A B : Type} (m : M A) (f : A → M B) metadata metadata' a :
  m metadata = (metadata', Ok a) → (m ≫= f) metadata = f a metadata'.
Proof. intros H. by rewrite M_bind_run, H. Qed.

Lemma bind_ok_inv {A B : Type} (m : M A) (f : A → M B) metadata metadata' b :
  (m ≫= f) metadata = (metadata', Ok b) →
  ∃ metadata1 a, m metadata = (metadata1, Ok a) ∧ f a metadata1 = (metadata', Ok b).
Proof.
  rewrite M_bind_run. destruct (m metadata) as [metadata1 [e|a]]; [done|].
  intros H. by exists metadata1, a.
Qed.

Lemma copy_field_dict package src dst f metadata :
  copy_field (VDict package) src dst f metadata
  = match package !! src with
    | None => (metadata, Ok tt)
    | Some v =>
        match f v with
        | inr r => (<[dst := r]> metadata, Ok tt)
        | inl e => (metadata, Err e)
        end
    end.
Proof.
  unfold copy_field. rewrite M_bind_run. simpl.
  destruct (package !! src) as [v|]; simpl; [|done].
  unfold mbind, M_bind, lift, setitem. simpl. by destruct (f v).
Qed.

Lemma construct_urls_dict package :
  construct_urls urljoin (VDict package)
  = let urls0 : gmap string value :=
      match package !! "homepage" with
      | Some homepage => <["homepage" := homepage]> ∅
      | None => ∅
      end in
    urls1 ← match package !! "bugs" with
            | Some bugs =>
                bugs_url ← _parse_bugs bugs;
                match bugs_url with
                | VNone => Ok urls0
                | _ => Ok (<["bug tracker" := bugs_url]> urls0)
                end
            | None => Ok urls0
            end;
    match package !! "repository" with
    | Some repository =>
        url ← _parse_repository urljoin repository;
        Ok (<["repository" := url]> urls1)
    | None => Ok urls1
    end.
Proof.
  unfold construct_urls. simpl.
  destruct (package !! "homepage"), (package !! "bugs"),
    (package !! "repository"); reflexivity.
Qed.

Lemma update_dict package metadata :
  update urljoin (Ok (VDict package)) metadata
  = (copy_field (VDict package) "author" "author" _parse_person;;
     copy_field (VDict package) "contributors" "maintainers"
       (λ v, ps ← iterate v; VList <$> rmapM _parse_person ps);;
     copy_field (VDict package) "keywords" "keywords" Ok;;
     copy_field (VDict package) "description" "description" Ok;;
     copy_field (VDict package) "license" "license" Ok;;
     urls ← lift (construct_urls urljoin (VDict package));
     when (negb (Nat.eqb (size urls) 0)) (setitem "urls" (VDict urls)))
      metadata.
Proof. reflexivity. Qed.

Lemma preserves_bind {A B : Type} key (m : M A) (f : A → M B) :
  preserves key m → (∀ a, preserves key (f a)) → preserves key (m ≫= f).
Proof.
  intros Hm Hf metadata. rewrite M_bind_run. specialize (Hm metadata).
  destruct (m metadata) as [metadata1 [e|a]]; simpl in *; [done|].
  by rewrite Hf.
Qed.

Lemma preserves_lift {A : Type} key (r : result A) : preserves key (lift r).
Proof. by intros metadata. Qed.

Lemma preserves_setitem key dst v : dst ≠ key → preserves key (setitem dst v).
Proof. intros H metadata. simpl. by rewrite lookup_insert_ne. Qed.

Lemma preserves_when key b m : preserves key m → preserves key (when b m).
Proof. by destruct b. Qed.

Lemma preserves_copy_field key package src dst f :
  dst ≠ key ∨ package !! src = None →
  preserves key (copy_field (VDict package) src dst f).
Proof.
  intros H metadata. rewrite copy_field_dict.
  destruct (package !! src) as [v|]; [|done].
  destruct H as [H|H]; [|done].
  destruct (f v); simpl; [done|]. by rewrite lookup_insert_ne.
Qed.

(** [update] leaves alone every key whose manifest field is absent. *)
Lemma update_frame package key :
  key ≠ "urls" →
  (∀ src, (src, key) ∈ field_table → package !! src = None) →
  preserves key (update urljoin (Ok (VDict package))).
Proof.
  intros Hk Hsrc metadata. rewrite update_dict. revert metadata.
  assert (Hcopy : ∀ src dst f, (src, dst) ∈ field_table →
            preserves key (copy_field (VDict package) src dst f)).
  { intros src dst f Hin. apply preserves_copy_field.
    destruct (decide (dst = key)) as [<-|]; [right; by apply Hsrc | by left]. }
  repeat (apply preserves_bind; [apply Hcopy; set_solver | intros _]).
  apply preserves_bind; [apply preserves_lift|]. intros urls.
  apply preserves_when, preserves_setitem. congruence.
Qed.

(** When [update] returns, the URL map was assembled, and it was written
    under [urls] unless it was empty. *)
Lemma update_ok_urls package metadata metadata' :
  update urljoin (Ok (VDict package)) metadata = (metadata', Ok tt) →
  ∃ urls,
    construct_urls urljoin (VDict package) = Ok urls
    ∧ metadata' !! "urls"
      = if Nat.eqb (size urls) 0 then metadata !! "urls"
        else Some (VDict urls).
Proof.
  rewrite update_dict. intros H.
  assert (Hstep : ∀ src dst f (k : M unit) md,
            dst ≠ "urls" →
            (copy_field (VDict package) src dst f ;; k) md = (metadata', Ok tt) →
            ∃ md1, md1 !! "urls" = md !! "urls" ∧ k md1 = (metadata', Ok tt)).
  { intros src dst f k md Hdst Hrun.
    apply bind_ok_inv in Hrun as (md1 & [] & Hcf & Hk). exists md1.
    split; [|done].
    pose proof (preserves_copy_field "urls" package src dst f
                  (or_introl Hdst) md) as Hp.
    by rewrite Hcf in Hp. }
  apply Hstep in H as (md1 & E1 & H); [|done].
  apply Hstep in H as (md2 & E2 & H); [|done].
  apply Hstep in H as (md3 & E3 & H); [|done].
  apply Hstep in H as (md4 & E4 & H); [|done].
  apply Hstep in H as (md5 & E5 & H); [|done].
  apply bind_ok_inv in H as (md6 & urls & Hu & H).
  unfold lift in Hu. injection Hu as <- Hu. exists urls. split; [done|].
  rewrite <- E1, <- E2, <- E3, <- E4, <- E5.
  destruct (Nat.eqb (size urls) 0); simpl in H; injection H as <-; [done|].
  by rewrite lookup_insert_eq.
Qed.

End Update.

Section UrlMap.

Variable urljoin : string → string → result string.

Implicit Types (package metadata urls : gmap string value).

Lemma size_nonempty urls key v :
  urls !! key = Some v → Nat.eqb (size urls) 0 = false.
Proof.
  intros H. apply Nat.eqb_neq. intros Hs.
  apply map_size_empty_iff in Hs. by rewrite Hs, lookup_empty in H.
Qed.

(** A repository object without [url] makes the assembly of the URL map
    fail, once the homepage and the bugs entries are resolved. *)
Lemma construct_urls_repository_missing package (r : gmap string value) urls :
  package !! "repository" = Some (VDict r) → r !! "url" = None →
  construct_urls urljoin (VDict (delete "repository" package)) = Ok urls →
  construct_urls urljoin (VDict package) = Err (KeyError "url").
Proof.
  intros Hr Hu. rewrite !construct_urls_dict.
  rewrite (lookup_delete_ne package "repository" "homepage") by done.
  rewrite (lookup_delete_ne package "repository" "bugs") by done.
  rewrite lookup_delete_eq, Hr. cbv zeta.
  destruct (match package !! "bugs" with Some _ => _ | None => _ end)
    as [e|urls1]; simpl; [done|].
  intros _. unfold getitem. by rewrite Hu.
Qed.

Lemma copy_field_delete package key src dst f metadata :
  src ≠ key →
  copy_field (VDict (delete key package)) src dst f metadata
  = copy_field (VDict package) src dst f metadata.
Proof. intros H. by rewrite !copy_field_dict, lookup_delete_ne. Qed.

Lemma update_repository_missing package (r : gmap string value)
    metadata metadata' :
  package !! "repository" = Some (VDict r) → r !! "url" = None →
  update urljoin (Ok (VDict (delete "repository" package))) metadata
  = (metadata', Ok tt) →
  ∃ metadata'',
    update urljoin (Ok (VDict package)) metadata
    = (metadata'', Err (KeyError "url")).
Proof.
  intros Hr Hu H.
  destruct (update_ok_urls urljoin _ _ _ H) as (urls & Hc & _).
  pose proof (construct_urls_repository_missing _ _ _ Hr Hu Hc) as Herr.
  rewrite update_dict in H. rewrite update_dict.
  repeat (apply bind_ok_inv in H as (? & [] & Hcf & H);
          rewrite copy_field_delete in Hcf by done;
          rewrite (bind_run_ok _ _ _ _ _ Hcf); cbv beta; clear Hcf).
  rewrite M_bind_run. unfold lift. rewrite Herr. eexists. reflexivity.
Qed.

End UrlMap.

Section BugsResolver.

Variable urljoin : string → string → result string.

Implicit Types (package metadata urls d : gmap string value).

Lemma parse_bugs_dict d :
  _parse_bugs (VDict d) = Ok (default VNone (d !! "url")).
Proof. unfold _parse_bugs. simpl. by destruct (d !! "url"). Qed.

(** The label [bug tracker] of the assembled URL map. *)
Lemma construct_urls_bug_tracker package d urls :
  package !! "bugs" = Some (VDict d) →
  construct_urls urljoin (VDict package) = Ok urls →
  urls !! "bug tracker"
  = match default VNone (d !! "url") with
    | VNone => None
    | u => Some u
    end.
Proof.
  intros Hb. rewrite construct_urls_dict, Hb. cbv zeta.
  rewrite parse_bugs_dict.
  set (urls0 := match package !! "homepage" with
                | Some homepage => <["homepage" := homepage]> ∅
                | None => (∅ : gmap string value)
                end).
  assert (H0 : urls0 !! "bug tracker" = None).
  { unfold urls0. destruct (package !! "homepage"); by simplify_map_eq. }
  destruct (default VNone (d !! "url")); simpl;
    (destruct (package !! "repository") as [r|];
     [destruct (_parse_repository urljoin r); simpl; [done|] |];
     intros [= <-]; by simplify_map_eq).
Qed.

End BugsResolver.

(** C7 (amended): the bugs resolver returns a string verbatim; for an
    object it returns [None] when the object has no [url] key and the value
    of [url] otherwise, so its result is [None] exactly when [url] is absent
    or holds [None]; and when [update] returns, the URL map carries the
    value of [url] under the label [bug tracker] unless that value is
    [None]: for an object without [url], or whose [url] is [None], the map
    has no such label. *)
Theorem parse_bugs_resolution :
  (∀ s, _parse_bugs (VStr s) = Ok (VStr s))
  ∧ (∀ d : gmap string value,
       (d !! "url" = None → _parse_bugs (VDict d) = Ok VNone)
       ∧ (∀ u, d !! "url" = Some u → _parse_bugs (VDict d) = Ok u)
       ∧ (_parse_bugs (VDict d) = Ok VNone
          ↔ d !! "url" = None ∨ d !! "url" = Some VNone))
  ∧ (∀ urljoin (package d : gmap string value) metadata metadata',
       package !! "bugs" = Some (VDict d) →
       update urljoin (Ok (VDict package)) metadata = (metadata', Ok tt) →
       (∀ u, d !! "url" = Some u → u ≠ VNone →
             ∃ urls : gmap string value,
               metadata' !! "urls" = Some (VDict urls)
               ∧ urls !! "bug tracker" = Some u)
       ∧ (d !! "url" = None ∨ d !! "url" = Some VNone →
          metadata' !! "urls" = metadata !! "urls"
          ∨ ∃ urls : gmap string value,
              metadata' !! "urls" = Some (VDict urls)
              ∧ urls !! "bug tracker" = None)).
Proof.
  split; [done|]. split.
  - intros d. rewrite parse_bugs_dict. split; [by intros ->|].
    split; [by intros u ->|]. split.
    + destruct (d !! "url") as [u|]; [|by left]. simpl.
      intros [= ->]. by right.
    + by intros [->| ->].
  - intros urljoin package d metadata metadata' Hb Hup.
    apply update_ok_urls in Hup as (urls & Hc & Hurls).
    pose proof (construct_urls_bug_tracker urljoin _ _ _ Hb Hc) as Hbt.
    split.
    + intros u Hu Hne. rewrite Hu in Hbt. simpl in Hbt.
      assert (Hbt' : urls !! "bug tracker" = Some u) by by destruct u.
      exists urls. by rewrite Hurls, (size_nonempty _ _ _ Hbt').
    + intros Hu.
      assert (Hbt' : urls !! "bug tracker" = None)
        by (destruct Hu as [Hu|Hu]; by rewrite Hu in Hbt).
      destruct (Nat.eqb (size urls) 0); [by left | right; by exists urls].
Qed.

Lemma parse_bugs_resolution_witness :
  let urljoin := cpython_urljoin no_check no_check in
  let d : gmap string value := {["url" := VStr "https://x/issues"]} in
  let package : gmap string value := {["bugs" := VDict d]} in
  d !! "url" = Some (VStr "https://x/issues")
  ∧ _parse_bugs (VDict d) = Ok (VStr "https://x/issues")
  ∧ package !! "bugs" = Some (VDict d)
  ∧ update urljoin (Ok (VDict package)) ∅
    = ({["urls" := VDict {["bug tracker" := VStr "https://x/issues"]}]}, Ok tt)
  ∧ ∃ urls : gmap string value,
      ({["urls" := VDict {["bug tracker" := VStr "https://x/issues"]}]}
         : gmap string value) !! "urls" = Some (VDict urls)
      ∧ urls !! "bug tracker" = Some (VStr "https://x/issues").
Proof.
  intros urljoin d package.
  assert (H1 : d !! "url" = Some (VStr "https://x/issues")) by reflexivity.
  assert (H2 : package !! "bugs" = Some (VDict d)) by reflexivity.
  assert (H4 : VStr "https://x/issues" ≠ VNone) by discriminate.
  assert (H3 : update urljoin (Ok (VDict package)) ∅
               = ({["urls" := VDict {["bug tracker" := VStr "https://x/issues"]}]},
                  Ok tt)) by (vm_compute; reflexivity).
  exact (conj H1
    (conj (proj1 (proj2 (proj1 (proj2 parse_bugs_resolution) d)) _ H1)
    (conj H2 (conj H3
      (proj1 (proj2 (proj2 parse_bugs_resolution) urljoin package d ∅ _ H2 H3)
         _ H1 H4))))).
Defined.

(** C7, as stated, fails on a bugs object whose [url] is [None] (the
    manifest [{"bugs": {"url": null}}]): the key is present, yet the
    resolver returns [None] and [update] writes no [bug tracker] label. *)
Lemma parse_bugs_null_url :
  let urljoin := cpython_urljoin no_check no_check in
  let d : gmap string value := {["url" := VNone]} in
  let package : gmap string value := {["bugs" := VDict d]} in
  d !! "url" = Some VNone
  ∧ _parse_bugs (VDict d) = Ok VNone
  ∧ ¬ (_parse_bugs (VDict d) = Ok VNone ↔ d !! "url" = None)
  ∧ update urljoin (Ok (VDict package)) ∅ = (∅, Ok tt).
Proof.
  intros urljoin d package.
  assert (H1 : d !! "url" = Some VNone) by reflexivity.
  assert (H2 : _parse_bugs (VDict d) = Ok VNone) by reflexivity.
  split; [exact H1|]. split; [exact H2|]. split.
  - intros [H _]. specialize (H H2). rewrite H1 in H. discriminate.
  - vm_compute. reflexivity.
Qed.

(** C8: [update] writes only the keys whose manifest fields are present.
    On a manifest that has only a description it sets [description] and
    nothing else; a key other than [urls] keeps its value whenever the
    field it is copied from is absent, whatever the outcome; and when
    [update] returns, [urls] was written if and only if the assembled URL
    map is not empty. *)
Theorem update_writes_present_fields urljoin :
  (∀ x metadata,
     update urljoin (Ok (VDict {["description" := x]})) metadata
     = (<["description" := x]> metadata, Ok tt))
  ∧ (∀ (package : gmap string value) metadata key,
       key ≠ "urls" →
       (∀ src, (src, key) ∈ field_table → package !! src = None) →
       (update urljoin (Ok (VDict package)) metadata).1 !! key
       = metadata !! key)
  ∧ (∀ (package : gmap string value) metadata metadata',
       update urljoin (Ok (VDict package)) metadata = (metadata', Ok tt) →
       ∃ urls : gmap string value,
         construct_urls urljoin (VDict package) = Ok urls
         ∧ metadata' !! "urls"
           = if Nat.eqb (size urls) 0 then metadata !! "urls"
             else Some (VDict urls)).
Proof.
  split; [|split].
  - intros x metadata. rewrite update_dict.
    do 3 (rewrite (bind_run_ok _ _ metadata metadata tt)
            by (by rewrite copy_field_dict, lookup_singleton_ne);
          cbv beta).
    rewrite (bind_run_ok _ _ metadata (<["description" := x]> metadata) tt)
      by (by rewrite copy_field_dict, lookup_singleton_eq).
    cbv beta.
    rewrite (bind_run_ok _ _ _ (<["description" := x]> metadata) tt)
      by (by rewrite copy_field_dict, lookup_singleton_ne).
    cbv beta. rewrite M_bind_run, construct_urls_dict.
    by rewrite !lookup_singleton_ne.
  - intros package metadata key Hk Hsrc. by apply update_frame.
  - intros package metadata metadata'. apply update_ok_urls.
Qed.

Lemma update_writes_present_fields_witness :
  let urljoin := cpython_urljoin no_check no_check in
  let package : gmap string value :=
    {["description" := VStr "x"; "homepage" := VStr "https://x.org"]} in
  let metadata : gmap string value := {["license" := VStr "MIT"]} in
  let metadata' : gmap string value :=
    {["description" := VStr "x"; "license" := VStr "MIT";
      "urls" := VDict {["homepage" := VStr "https://x.org"]}]} in
  update urljoin (Ok (VDict package)) metadata = (metadata', Ok tt)
  ∧ (update urljoin (Ok (VDict package)) metadata).1 !! "license"
    = metadata !! "license"
  ∧ ∃ urls : gmap string value,
      construct_urls urljoin (VDict package) = Ok urls
      ∧ metadata' !! "urls"
        = if Nat.eqb (size urls) 0 then metadata !! "urls"
          else Some (VDict urls).
Proof.
  intros urljoin package metadata metadata'.
  assert (H2 : "license" ≠ "urls") by discriminate.
  assert (H3 : ∀ src, (src, "license") ∈ field_table → package !! src = None).
  { intros src H. unfold field_table in H.
    do 4 (apply elem_of_cons in H as [[=]|H]).
    apply elem_of_cons in H as [[= ->]|H]; [reflexivity|].
    apply elem_of_nil in H. destruct H. }
  assert (H1 : update urljoin (Ok (VDict package)) metadata = (metadata', Ok tt))
    by (vm_compute; reflexivity).
  exact (conj H1
    (conj (proj1 (proj2 (update_writes_present_fields urljoin))
             package metadata "license" H2 H3)
          (proj2 (proj2 (update_writes_present_fields urljoin))
             package metadata metadata' H1))).
Defined.

(** C10: a repository object without a [url] key makes the repository
    resolver raise [KeyError], where the bugs resolver answers [None] for
    the same object; so [update] never returns on a manifest whose
    repository is such an object, and it propagates that [KeyError]
    whenever the manifest without its repository entry is accepted. *)
Theorem parse_repository_missing_url urljoin (d : gmap string value) :
  d !! "url" = None →
  _parse_repository urljoin (VDict d) = Err (KeyError "url")
  ∧ _parse_bugs (VDict d) = Ok VNone
  ∧ (∀ (package : gmap string value) metadata,
       package !! "repository" = Some (VDict d) →
       ∃ metadata' e,
         update urljoin (Ok (VDict package)) metadata = (metadata', Err e))
  ∧ (∀ (package : gmap string value) metadata metadata',
       package !! "repository" = Some (VDict d) →
       update urljoin (Ok (VDict (delete "repository" package))) metadata
       = (metadata', Ok tt) →
       ∃ metadata'',
         update urljoin (Ok (VDict package)) metadata
         = (metadata'', Err (KeyError "url"))).
Proof.
  intros Hu. split; [|split; [|split]].
  - simpl. unfold getitem. by rewrite Hu.
  - unfold _parse_bugs. simpl. by rewrite Hu.
  - intros package metadata Hr.
    destruct (update urljoin (Ok (VDict package)) metadata)
      as [metadata' [e|[]]] eqn:Hup; [by eexists _, _|].
    apply update_ok_urls in Hup as (urls & Hc & _).
    rewrite construct_urls_dict, Hr in Hc. cbv zeta in Hc.
    destruct (match package !! "bugs" with Some _ => _ | None => _ end)
      as [e|urls1]; simpl in Hc; [done|].
    unfold getitem in Hc. by rewrite Hu in Hc.
  - intros package metadata metadata' Hr Hup.
    by apply (update_repository_missing urljoin package d metadata metadata').
Qed.

Lemma parse_repository_missing_url_witness :
  let urljoin := cpython_urljoin no_check no_check in
  let d : gmap string value := {["type" := VStr "git"]} in
  let package : gmap string value :=
    {["license" := VStr "MIT"; "repository" := VDict d]} in
  d !! "url" = None
  ∧ _parse_repository urljoin (VDict d) = Err (KeyError "url")
  ∧ _parse_bugs (VDict d) = Ok VNone
  ∧ update urljoin (Ok (VDict package)) ∅
    = ({["license" := VStr "MIT"]}, Err (KeyError "url")).
Proof.
  intros urljoin d package.
  assert (H : d !! "url" = None) by reflexivity.
  pose proof (parse_repository_missing_url urljoin d H) as (H1 & H2 & _).
  split; [exact H|]. split; [exact H1|]. split; [exact H2|].
  vm_compute. reflexivity.
Defined.

(** ** What [update] writes when it returns *)
Section UpdateOutcome.

Variable urljoin : string → string → result string.

Implicit Types (package metadata urls : gmap string value).
Implicit Types (key src dst : string) (o : option value).

Lemma lookup_put key o metadata i :
  put key o metadata !! i
  = if decide (key = i) then from_option Some (metadata !! i) o
    else metadata !! i.
Proof.
  destruct o as [v|]; simpl; [|by destruct (decide _)].
  rewrite lookup_insert. by destruct (decide _).
Qed.

Lemma copy_field_run package src dst f o metadata :
  copied package src f o →
  copy_field (VDict package) src dst f metadata = (put dst o metadata, Ok tt).
Proof.
  unfold copied. rewrite copy_field_dict.
  destruct (package !! src) as [v|]; [|by intros ->].
  by intros (r & -> & ->).
Qed.

Lemma copy_field_ok_inv package src dst f metadata metadata1 :
  copy_field (VDict package) src dst f metadata = (metadata1, Ok tt) →
  ∃ o, copied package src f o ∧ metadata1 = put dst o metadata.
Proof.
  unfold copied. rewrite copy_field_dict.
  destruct (package !! src) as [v|].
  - destruct (f v) as [e|r]; [done|]. intros [= <-]. exists (Some r). eauto.
  - intros [= <-]. by exists None.
Qed.

Lemma copied_verbatim package src o :
  copied package src Ok o ↔ o = package !! src.
Proof.
  unfold copied. destruct (package !! src) as [v|]; [|done]. split.
  - by intros (r & [= <-] & ->).
  - intros ->. by exists v.
Qed.

(** [update] returns exactly when the author and the contributors parse
    and the URL map is assembled; the metadata is then [updated]. *)
Lemma update_ok_iff package metadata metadata' :
  update urljoin (Ok (VDict package)) metadata = (metadata', Ok tt)
  ↔ ∃ a m urls,
      copied package "author" _parse_person a
      ∧ copied package "contributors" parse_contributors m
      ∧ construct_urls urljoin (VDict package) = Ok urls
      ∧ metadata' = updated package a m urls metadata.
Proof.
  rewrite update_dict. split.
  - intros H.
    apply bind_ok_inv in H as (md1 & [] & H1 & H).
    apply copy_field_ok_inv in H1 as (a & Ha & ->).
    apply bind_ok_inv in H as (md2 & [] & H2 & H).
    apply copy_field_ok_inv in H2 as (m & Hm & ->).
    apply bind_ok_inv in H as (md3 & [] & H3 & H).
    apply copy_field_ok_inv in H3 as (k & Hk%copied_verbatim & ->).
    apply bind_ok_inv in H as (md4 & [] & H4 & H).
    apply copy_field_ok_inv in H4 as (d & Hd%copied_verbatim & ->).
    apply bind_ok_inv in H as (md5 & [] & H5 & H).
    apply copy_field_ok_inv in H5 as (l & Hl%copied_verbatim & ->).
    apply bind_ok_inv in H as (md6 & urls & Hu & H).
    unfold lift in Hu. injection Hu as <- Hu. subst k d l.
    exists a, m, urls. repeat split; [done..|]. unfold updated.
    destruct (Nat.eqb (size urls) 0); simpl in H; by injection H as <-.
  - intros (a & m & urls & Ha & Hm & Hu & ->).
    rewrite (bind_run_ok _ _ _ _ tt (copy_field_run _ _ _ _ _ _ Ha)).
    cbv beta.
    rewrite (bind_run_ok _ _ _ _ tt (copy_field_run _ _ _ _ _ _ Hm)).
    cbv beta.
    do 3 (erewrite bind_run_ok;
            [|by apply copy_field_run, copied_verbatim]; cbv beta).
    rewrite M_bind_run. unfold lift. rewrite Hu. unfold updated.
    unfold Ok at 1. cbv beta iota.
    destruct (Nat.eqb (size urls) 0); reflexivity.
Qed.

End UpdateOutcome.

Section UpdateFields.

Variable urljoin : string → string → result string.

Implicit Types (package metadata urls : gmap string value).

Lemma rmapM_Forall2 {A B : Type} (f : A → result B) (l : list A) (rs : list B) :
  rmapM f l = Ok rs ↔ Forall2 (λ x y, f x = Ok y) l rs.
Proof.
  revert rs. induction l as [|x l IH]; intros rs; simpl.
  - split; [intros [= <-]; constructor | by intros ->%Forall2_nil_inv_l].
  - destruct (f x) as [e|y] eqn:Hx; simpl.
    + split; [done|]. intros (y & rs' & Hy & _ & _)%Forall2_cons_inv_l.
      by rewrite Hx in Hy.
    + destruct (rmapM f l) as [e|ys] eqn:Hl; simpl.
      * split; [done|]. intros (y' & rs' & _ & Hrs & _)%Forall2_cons_inv_l.
        by apply IH in Hrs.
      * split.
        -- intros [= <-]. constructor; [done | by apply IH].
        -- intros (y' & rs' & Hy & Hrs & ->)%Forall2_cons_inv_l.
           apply IH in Hrs. rewrite Hx in Hy.
           by injection Hy as <-; injection Hrs as <-.
Qed.

Lemma lookup_updated package a m urls metadata key :
  updated package a m urls metadata !! key
  = if decide (key = "urls")
    then (if Nat.eqb (size urls) 0 then metadata !! "urls"
          else Some (VDict urls))
    else if decide (key = "license")
    then from_option Some (metadata !! "license") (package !! "license")
    else if decide (key = "description")
    then from_option Some (metadata !! "description")
           (package !! "description")
    else if decide (key = "keywords")
    then from_option Some (metadata !! "keywords") (package !! "keywords")
    else if decide (key = "maintainers")
    then from_option Some (metadata !! "maintainers") m
    else if decide (key = "author")
    then from_option Some (metadata !! "author") a
    else metadata !! key.
Proof.
  unfold updated. rewrite !lookup_put.
  repeat (destruct (decide (key = _)) as [->|]; simpl;
          [by destruct (Nat.eqb _ _) || done|]);
    repeat (destruct (decide (_ = key)) as [<-|]; [done|]); done.
Qed.

Lemma updated_updated package a m urls metadata :
  updated package a m urls (updated package a m urls metadata)
  = updated package a m urls metadata.
Proof.
  apply map_eq. intros key.
  rewrite (lookup_updated _ _ _ _ (updated _ _ _ _ _)).
  repeat (destruct (decide (key = _)) as [->|];
          [rewrite lookup_updated; simpl|]).
  - by destruct (Nat.eqb (size urls) 0).
  - by destruct (package !! "license").
  - by destruct (package !! "description").
  - by destruct (package !! "keywords").
  - by destruct m.
  - by destruct a.
  - rewrite lookup_updated. by repeat (destruct (decide (key = _)); [done|]).
Qed.

End UpdateFields.

(** X1: when [update] returns, [author] holds the person parsed from the
    manifest's author, and [maintainers] holds the persons parsed from its
    contributors, one for each contributor and in the same order, whatever
    the two keys held before. *)
Theorem update_author_maintainers urljoin
    (package metadata metadata' : gmap string value) :
  update urljoin (Ok (VDict package)) metadata = (metadata', Ok tt) →
  (∀ v, package !! "author" = Some v →
        ∃ r, _parse_person v = Ok r ∧ metadata' !! "author" = Some r)
  ∧ (∀ ps, package !! "contributors" = Some (VList ps) →
           ∃ rs, Forall2 (λ p r, _parse_person p = Ok r) ps rs
                 ∧ metadata' !! "maintainers" = Some (VList rs)).
Proof.
  intros (a & m & urls & Ha & Hm & _ & ->)%update_ok_iff. split.
  - intros v Hv. unfold copied in Ha. rewrite Hv in Ha.
    destruct Ha as (r & Hr & ->). exists r. split; [done|].
    by rewrite lookup_updated.
  - intros ps Hps. unfold copied in Hm. rewrite Hps in Hm.
    destruct Hm as (r & Hr & ->). unfold parse_contributors in Hr.
    simpl in Hr. destruct (rmapM _parse_person ps) as [e|rs] eqn:Hrs; [done|].
    injection Hr as <-. exists rs. split; [by apply rmapM_Forall2|].
    by rewrite lookup_updated.
Qed.

Lemma update_author_maintainers_witness :
  let urljoin := cpython_urljoin no_check no_check in
  let bob := VDict {["name" := VStr "Bob"; "url" := VStr "https://bob.io"]} in
  let al := VDict {["name" := VStr "Al <al@example.com> (https://al.io)"]} in
  let package : gmap string value :=
    {["author" := VDict {["name" := VStr "Jane Doe <jane@example.com>"]};
      "contributors" := VList [bob; al]]} in
  let metadata : gmap string value := {["author" := VStr "stale"]} in
  let metadata' : gmap string value :=
    {["author" := VDict {["name" := VStr "Jane Doe";
                          "email" := VStr "jane@example.com"]};
      "maintainers" :=
        VList [VDict {["name" := VStr "Bob"]};
               VDict {["name" := VStr "Al";
                       "email" := VStr "al@example.com"]}]]} in
  update urljoin (Ok (VDict package)) metadata = (metadata', Ok tt)
  ∧ (∃ r, _parse_person
            (VDict {["name" := VStr "Jane Doe <jane@example.com>"]}) = Ok r
          ∧ metadata' !! "author" = Some r)
  ∧ ∃ rs, Forall2 (λ p r, _parse_person p = Ok r) [bob; al] rs
          ∧ metadata' !! "maintainers" = Some (VList rs).
Proof.
  intros urljoin bob al package metadata metadata'.
  assert (H : update urljoin (Ok (VDict package)) metadata
              = (metadata', Ok tt)) by (vm_compute; reflexivity).
  pose proof (update_author_maintainers urljoin package metadata metadata' H)
    as [Ha Hm].
  exact (conj H (conj (Ha _ eq_refl) (Hm _ eq_refl))).
Defined.

(** X2: when [update] returns, [keywords], [description] and [license] hold
    the manifest's values verbatim. *)
Theorem update_copies_verbatim urljoin
    (package metadata metadata' : gmap string value) (key : string) (v : value) :
  update urljoin (Ok (VDict package)) metadata = (metadata', Ok tt) →
  key ∈ ["keywords"; "description"; "license"] →
  package !! key = Some v →
  metadata' !! key = Some v.
Proof.
  intros (a & m & urls & _ & _ & _ & ->)%update_ok_iff Hkey Hv.
  rewrite lookup_updated.
  repeat (apply elem_of_cons in Hkey as [->|Hkey]; [by rewrite Hv|]).
  by apply elem_of_nil in Hkey.
Qed.

Lemma update_copies_verbatim_witness :
  let urljoin := cpython_urljoin no_check no_check in
  let package : gmap string value :=
    {["keywords" := VList [VStr "a"; VStr "b"]; "license" := VStr "MIT"]} in
  let metadata : gmap string value := {["license" := VStr "GPL"]} in
  let metadata' : gmap string value :=
    {["keywords" := VList [VStr "a"; VStr "b"]; "license" := VStr "MIT"]} in
  update urljoin (Ok (VDict package)) metadata = (metadata', Ok tt)
  ∧ "license" ∈ ["keywords"; "description"; "license"]
  ∧ package !! "license" = Some (VStr "MIT")
  ∧ metadata' !! "license" = Some (VStr "MIT").
Proof.
  intros urljoin package metadata metadata'.
  assert (H2 : "license" ∈ ["keywords"; "description"; "license"]).
  { repeat constructor. }
  assert (H3 : package !! "license" = Some (VStr "MIT")) by reflexivity.
  assert (H1 : update urljoin (Ok (VDict package)) metadata
               = (metadata', Ok tt)) by (vm_compute; reflexivity).
  exact (conj H1 (conj H2 (conj H3
    (update_copies_verbatim urljoin package metadata metadata'
       "license" _ H1 H2 H3)))).
Defined.

Section UrlMapContents.

Variable urljoin : string → string → result string.

Implicit Types (package metadata urls : gmap string value).

(** The URL map, label by label. *)
Lemma construct_urls_labels package urls :
  construct_urls urljoin (VDict package) = Ok urls →
  urls !! "homepage" = package !! "homepage"
  ∧ match package !! "bugs" with
    | Some bugs =>
        ∃ bugs_url, _parse_bugs bugs = Ok bugs_url
          ∧ urls !! "bug tracker"
            = match bugs_url with VNone => None | _ => Some bugs_url end
    | None => urls !! "bug tracker" = None
    end
  ∧ match package !! "repository" with
    | Some repository =>
        ∃ url, _parse_repository urljoin repository = Ok url
               ∧ urls !! "repository" = Some url
    | None => urls !! "repository" = None
    end
  ∧ ∀ key, key ∉ ["homepage"; "bug tracker"; "repository"] →
           urls !! key = None.
Proof.
  rewrite construct_urls_dict. cbv zeta.
  set (urls0 := match package !! "homepage" with
                | Some homepage => <["homepage" := homepage]> ∅
                | None => (∅ : gmap string value)
                end).
  assert (H0 : ∀ key, urls0 !! key
                      = if decide (key = "homepage")
                        then package !! "homepage" else None).
  { intros key. unfold urls0.
    destruct (package !! "homepage"), (decide _) as [->|];
      by simplify_map_eq. }
  clearbody urls0.
  destruct (match package !! "bugs" with Some bugs => _ | None => _ end)
    as [e|urls1] eqn:H1; [done|]. simpl.
  assert (Hb : match package !! "bugs" with
               | Some bugs =>
                   ∃ bugs_url, _parse_bugs bugs = Ok bugs_url
                     ∧ urls1 = match bugs_url with
                               | VNone => urls0
                               | _ => <["bug tracker" := bugs_url]> urls0
                               end
               | None => urls1 = urls0
               end).
  { destruct (package !! "bugs") as [bugs|]; [|by injection H1].
    destruct (_parse_bugs bugs) as [e|bugs_url]; [done|]. simpl in H1.
    exists bugs_url. split; [done|].
    by destruct bugs_url; injection H1. }
  clear H1. intros Hr.
  assert (Hkeys : ∀ key, key ≠ "repository" → urls !! key = urls1 !! key).
  { intros key Hk. destruct (package !! "repository") as [r|].
    - destruct (_parse_repository urljoin r); [done|]. simpl in Hr.
      injection Hr as <-. by rewrite lookup_insert_ne.
    - by injection Hr as <-. }
  assert (H1 : ∀ key, key ≠ "bug tracker" → urls1 !! key = urls0 !! key).
  { intros key Hk. destruct (package !! "bugs") as [bugs|]; [|by subst].
    destruct Hb as (u & _ & ->). destruct u; by simplify_map_eq. }
  split; [|split; [|split]].
  - by rewrite Hkeys, H1, H0.
  - rewrite Hkeys by done.
    destruct (package !! "bugs") as [bugs|].
    + destruct Hb as (u & Hu & ->). exists u. split; [done|].
      destruct u; rewrite ?lookup_insert_eq, ?H0; done.
    + subst. by rewrite H0.
  - destruct (package !! "repository") as [r|].
    + destruct (_parse_repository urljoin r) as [e|u]; [done|]. simpl in Hr.
      injection Hr as <-. exists u. by rewrite lookup_insert_eq.
    + injection Hr as <-.
      destruct (package !! "bugs") as [bugs|]; [|subst; by rewrite H0].
      destruct Hb as (u & _ & ->). destruct u; by simplify_map_eq.
  - intros key Hkey.
    assert (key ≠ "homepage" ∧ key ≠ "bug tracker" ∧ key ≠ "repository")
      as (? & ? & ?) by set_solver.
    rewrite Hkeys, H1, H0 by done. by destruct (decide _).
Qed.

End UrlMapContents.

(** X3: when [update] returns, the URL map it wrote holds the homepage
    verbatim, the resolved repository, and a bugs string verbatim under
    [bug tracker]. *)
Theorem update_url_map_entries urljoin
    (package metadata metadata' : gmap string value) :
  update urljoin (Ok (VDict package)) metadata = (metadata', Ok tt) →
  (∀ h, package !! "homepage" = Some h →
        ∃ urls : gmap string value,
          metadata' !! "urls" = Some (VDict urls)
          ∧ urls !! "homepage" = Some h)
  ∧ (∀ r, package !! "repository" = Some r →
          ∃ (urls : gmap string value) u,
            metadata' !! "urls" = Some (VDict urls)
            ∧ _parse_repository urljoin r = Ok u
            ∧ urls !! "repository" = Some u)
  ∧ (∀ s, package !! "bugs" = Some (VStr s) →
          ∃ urls : gmap string value,
            metadata' !! "urls" = Some (VDict urls)
            ∧ urls !! "bug tracker" = Some (VStr s)).
Proof.
  intros (urls & Hc & Hw)%update_ok_urls.
  destruct (construct_urls_labels urljoin _ _ Hc) as (Hh & Hb & Hr & _).
  split; [|split].
  - intros h Hp. rewrite Hp in Hh. exists urls.
    by rewrite Hw, (size_nonempty _ _ _ Hh).
  - intros r Hp. rewrite Hp in Hr. destruct Hr as (u & Hu & Hl).
    exists urls, u. by rewrite Hw, (size_nonempty _ _ _ Hl).
  - intros s Hp. rewrite Hp in Hb. destruct Hb as (u & [= <-] & Hl).
    exists urls. by rewrite Hw, (size_nonempty _ _ _ Hl).
Qed.

Lemma update_url_map_entries_witness :
  let urljoin := cpython_urljoin no_check no_check in
  let package : gmap string value :=
    {["homepage" := VStr "https://x.org";
      "repository" := VDict {["type" := VStr "git";
                              "url" := VStr "git://x.org/x.git"]};
      "bugs" := VStr "https://x.org/issues"]} in
  let urls : gmap string value :=
    {["homepage" := VStr "https://x.org";
      "bug tracker" := VStr "https://x.org/issues";
      "repository" := VStr "git://x.org/x.git"]} in
  update urljoin (Ok (VDict package)) ∅ = ({["urls" := VDict urls]}, Ok tt)
  ∧ ∃ (urls' : gmap string value) u,
      ({["urls" := VDict urls]} : gmap string value) !! "urls"
      = Some (VDict urls')
      ∧ _parse_repository urljoin
          (VDict {["type" := VStr "git"; "url" := VStr "git://x.org/x.git"]})
        = Ok u
      ∧ urls' !! "repository" = Some u.
Proof.
  intros urljoin package urls.
  assert (H : update urljoin (Ok (VDict package)) ∅
              = ({["urls" := VDict urls]}, Ok tt))
    by (vm_compute; reflexivity).
  exact (conj H
    (proj1 (proj2 (update_url_map_entries urljoin package ∅ _ H)) _ eq_refl)).
Defined.

(** X4: the URL map [update] writes is never empty and has no label beyond
    [homepage], [bug tracker] and [repository]; otherwise [urls] keeps the
    value it had. *)
Theorem update_url_map_labels urljoin
    (package metadata metadata' : gmap string value) :
  update urljoin (Ok (VDict package)) metadata = (metadata', Ok tt) →
  metadata' !! "urls" = metadata !! "urls"
  ∨ ∃ urls : gmap string value,
      metadata' !! "urls" = Some (VDict urls)
      ∧ urls ≠ ∅
      ∧ ∀ key, is_Some (urls !! key) →
               key ∈ ["homepage"; "bug tracker"; "repository"].
Proof.
  intros (urls & Hc & Hw)%update_ok_urls. rewrite Hw.
  destruct (Nat.eqb (size urls) 0) eqn:Hs; [by left|]. right.
  exists urls. split; [done|]. split.
  - intros ->. by rewrite map_size_empty in Hs.
  - destruct (construct_urls_labels urljoin _ _ Hc) as (_ & _ & _ & Hk).
    intros key [v Hv].
    destruct (decide (key ∈ ["homepage"; "bug tracker"; "repository"]))
      as [|Hn]; [done|].
    by rewrite (Hk _ Hn) in Hv.
Qed.

Lemma update_url_map_labels_witness :
  let urljoin := cpython_urljoin no_check no_check in
  let package : gmap string value :=
    {["bugs" := VDict ∅; "repository" := VStr "gist:abc"]} in
  let urls : gmap string value :=
    {["repository" := VStr "https://gist.github.com/abc"]} in
  update urljoin (Ok (VDict package)) ∅ = ({["urls" := VDict urls]}, Ok tt)
  ∧ (({["urls" := VDict urls]} : gmap string value) !! "urls" = (∅ : gmap string value) !! "urls"
     ∨ ∃ urls' : gmap string value,
         ({["urls" := VDict urls]} : gmap string value) !! "urls"
         = Some (VDict urls')
         ∧ urls' ≠ ∅
         ∧ ∀ key, is_Some (urls' !! key) →
                  key ∈ ["homepage"; "bug tracker"; "repository"]).
Proof.
  intros urljoin package urls.
  assert (H : update urljoin (Ok (VDict package)) ∅
              = ({["urls" := VDict urls]}, Ok tt))
    by (vm_compute; reflexivity).
  exact (conj H (update_url_map_labels urljoin package ∅ _ H)).
Defined.

(** X5: [update] is idempotent: run again on the metadata it produced, with
    the same manifest, it returns and changes nothing. *)
Theorem update_idempotent urljoin
    (package metadata metadata' : gmap string value) :
  update urljoin (Ok (VDict package)) metadata = (metadata', Ok tt) →
  update urljoin (Ok (VDict package)) metadata' = (metadata', Ok tt).
Proof.
  intros (a & m & urls & Ha & Hm & Hu & ->)%update_ok_iff.
  apply update_ok_iff. exists a, m, urls.
  by rewrite updated_updated.
Qed.

Lemma update_idempotent_witness :
  let urljoin := cpython_urljoin no_check no_check in
  let package : gmap string value :=
    {["description" := VStr "x"; "homepage" := VStr "https://x.org"]} in
  let metadata : gmap string value := {["description" := VStr "old"]} in
  let metadata' : gmap string value :=
    {["description" := VStr "x";
      "urls" := VDict {["homepage" := VStr "https://x.org"]}]} in
  update urljoin (Ok (VDict package)) metadata = (metadata', Ok tt)
  ∧ update urljoin (Ok (VDict package)) metadata' = (metadata', Ok tt).
Proof.
  intros urljoin package metadata metadata'.
  assert (H : update urljoin (Ok (VDict package)) metadata
              = (metadata', Ok tt)) by (vm_compute; reflexivity).
  exact (conj H (update_idempotent urljoin package metadata metadata' H)).
Defined.

Section UpdateErrors.

Variable urljoin : string → string → result string.

Implicit Types (package metadata : gmap string value).

Lemma bind_err_inv {A B : Type} (m : M A) (f : A → M B) metadata metadata' e :
  (m ≫= f) metadata = (metadata', Err e) →
  m metadata = (metadata', Err e)
  ∨ ∃ metadata1 a, m metadata = (metadata1, Ok a)
                   ∧ f a metadata1 = (metadata', Err e).
Proof.
  rewrite M_bind_run. destruct (m metadata) as [metadata1 [e'|a]].
  - intros [= <- <-]. by left.
  - intros H. right. by exists metadata1, a.
Qed.

Lemma copy_field_err_inv package src dst f metadata metadata1 e :
  copy_field (VDict package) src dst f metadata = (metadata1, Err e) →
  ∃ v, package !! src = Some v ∧ f v = Err e ∧ metadata1 = metadata.
Proof.
  rewrite copy_field_dict. destruct (package !! src) as [v|]; [|done].
  destruct (f v) as [e'|r] eqn:Hf; [|done].
  intros [= <- <-]. by exists v.
Qed.

Lemma copy_field_fail package src dst f metadata v e :
  package !! src = Some v → f v = Err e →
  copy_field (VDict package) src dst f metadata = (metadata, Err e).
Proof. intros Hv Hf. by rewrite copy_field_dict, Hv, Hf. Qed.

Lemma bind_run_err {A B : Type} (m : M A) (f : A → M B) metadata metadata' e :
  m metadata = (metadata', Err e) → (m ≫= f) metadata = (metadata', Err e).
Proof. intros H. by rewrite M_bind_run, H. Qed.

(** How [update] fails: on the author, before anything is written; on the
    contributors, after the author is written; or on the URL map, after all
    the top-level fields are written and before [urls] is. *)
Lemma update_err_iff package metadata metadata' e :
  update urljoin (Ok (VDict package)) metadata = (metadata', Err e)
  ↔ (∃ v, package !! "author" = Some v ∧ _parse_person v = Err e
          ∧ metadata' = metadata)
    ∨ (∃ a v, copied package "author" _parse_person a
              ∧ package !! "contributors" = Some v
              ∧ parse_contributors v = Err e
              ∧ metadata' = put "author" a metadata)
    ∨ (∃ a m, copied package "author" _parse_person a
              ∧ copied package "contributors" parse_contributors m
              ∧ construct_urls urljoin (VDict package) = Err e
              ∧ metadata'
                = put "license" (package !! "license")
                    (put "description" (package !! "description")
                       (put "keywords" (package !! "keywords")
                          (put "maintainers" m (put "author" a metadata))))).
Proof.
  rewrite update_dict. split.
  - intros H.
    apply bind_err_inv in H as [H|(md1 & [] & H1 & H)].
    { apply copy_field_err_inv in H as (v & Hv & Hf & ->). left. by exists v. }
    apply copy_field_ok_inv in H1 as (a & Ha & ->). right.
    apply bind_err_inv in H as [H|(md2 & [] & H2 & H)].
    { apply copy_field_err_inv in H as (v & Hv & Hf & ->). left.
      by exists a, v. }
    apply copy_field_ok_inv in H2 as (m & Hm & ->). right.
    apply bind_err_inv in H as [H|(md3 & [] & H3 & H)].
    { by apply copy_field_err_inv in H as (v & _ & ? & _). }
    apply copy_field_ok_inv in H3 as (k & ->%copied_verbatim & ->).
    apply bind_err_inv in H as [H|(md4 & [] & H4 & H)].
    { by apply copy_field_err_inv in H as (v & _ & ? & _). }
    apply copy_field_ok_inv in H4 as (d & ->%copied_verbatim & ->).
    apply bind_err_inv in H as [H|(md5 & [] & H5 & H)].
    { by apply copy_field_err_inv in H as (v & _ & ? & _). }
    apply copy_field_ok_inv in H5 as (l & ->%copied_verbatim & ->).
    exists a, m. split; [done|]. split; [done|].
    apply bind_err_inv in H as [H|(md6 & urls & _ & H)].
    + unfold lift in H. by injection H as <- ->.
    + by destruct (negb (Nat.eqb (size urls) 0)).
  - intros [(v & Hv & Hf & ->)|[(a & v & Ha & Hv & Hf & ->)
                                |(a & m & Ha & Hm & Hu & ->)]].
    + apply bind_run_err. by apply copy_field_fail with v.
    + rewrite (bind_run_ok _ _ _ _ tt (copy_field_run _ _ _ _ _ _ Ha)).
      cbv beta. apply bind_run_err. by apply copy_field_fail with v.
    + rewrite (bind_run_ok _ _ _ _ tt (copy_field_run _ _ _ _ _ _ Ha)).
      cbv beta.
      rewrite (bind_run_ok _ _ _ _ tt (copy_field_run _ _ _ _ _ _ Hm)).
      cbv beta.
      do 3 (erewrite bind_run_ok;
              [|by apply copy_field_run, copied_verbatim]; cbv beta).
      apply bind_run_err. unfold lift. by rewrite Hu.
Qed.

End UpdateErrors.

Section UpdateFailures.

Variable urljoin : string → string → result string.

Implicit Types (package metadata : gmap string value) (v : value).
Implicit Types (key src dst : string).

Lemma update_load_error e metadata :
  update urljoin (Err e) metadata = (metadata, Err e).
Proof. reflexivity. Qed.

Lemma getitem_non_object v key :
  (∀ d, v ≠ VDict d) → getitem v key = Err TypeError.
Proof.
  intros Hv. destruct v as [| | | | | |d]; try done. by destruct (Hv d).
Qed.

(** On a manifest that is not an object a field is either not found or the
    lookup raises [TypeError]; nothing is written. *)
Lemma copy_field_non_object v src dst f (k : M unit) metadata :
  (∀ d, v ≠ VDict d) →
  (copy_field v src dst f ;; k) metadata
  = if lacks v src then k metadata else (metadata, Err TypeError).
Proof.
  intros Hv. unfold copy_field, lacks. rewrite !M_bind_run. unfold lift at 1.
  destruct (contains src v) as [e|[]] eqn:Hc.
  - destruct v; try done; by injection Hc as <-.
  - unfold when. rewrite M_bind_run. unfold lift at 1.
    by rewrite getitem_non_object.
  - reflexivity.
Qed.

Lemma construct_urls_non_object v :
  (∀ d, v ≠ VDict d) →
  construct_urls urljoin v
  = if forallb (lacks v) ["homepage"; "bugs"; "repository"]
    then Ok ∅ else Err TypeError.
Proof.
  intros Hv. unfold construct_urls, lacks. simpl forallb.
  pose proof (getitem_non_object v "homepage" Hv) as H1.
  pose proof (getitem_non_object v "bugs" Hv) as H2.
  pose proof (getitem_non_object v "repository" Hv) as H3.
  destruct (contains "homepage" v) as [e|[]] eqn:Hc1.
  - destruct v; try done; by injection Hc1 as <-.
  - by rewrite H1.
  - destruct (contains "bugs" v) as [e|[]] eqn:Hc2.
    + destruct v; try done; by injection Hc2 as <-.
    + simpl. by rewrite H2.
    + destruct (contains "repository" v) as [e|[]] eqn:Hc3.
      * destruct v; try done; by injection Hc3 as <-.
      * simpl. by rewrite H3.
      * reflexivity.
Qed.

(** [update] on a manifest that is not an object: it returns, writing
    nothing, when none of the fields is found in it, and raises [TypeError],
    writing nothing, otherwise. *)
Lemma update_non_object v metadata :
  (∀ d, v ≠ VDict d) →
  update urljoin (Ok v) metadata
  = (metadata,
     if forallb (lacks v) manifest_fields then Ok tt else Err TypeError).
Proof.
  intros Hv. unfold update.
  rewrite (bind_run_ok _ _ metadata metadata v eq_refl).
  rewrite !copy_field_non_object by done.
  unfold manifest_fields. simpl forallb.
  destruct (lacks v "author"); [|done].
  destruct (lacks v "contributors"); [|done].
  destruct (lacks v "keywords"); [|done].
  destruct (lacks v "description"); [|done].
  destruct (lacks v "license"); [|done].
  rewrite M_bind_run. unfold lift.
  rewrite construct_urls_non_object by done. simpl forallb.
  destruct (lacks v "homepage"); [|done].
  destruct (lacks v "bugs"); [|done].
  destruct (lacks v "repository"); [|done].
  reflexivity.
Qed.

Lemma forallb_false {A : Type} (f : A → bool) (l : list A) :
  forallb f l = false ↔ ∃ x, x ∈ l ∧ f x = false.
Proof.
  induction l as [|y l IH]; simpl.
  - split; [done|]. intros (x & Hx & _). by apply elem_of_nil in Hx.
  - rewrite andb_false_iff, IH. split.
    + intros [Hy|(x & Hx & Hf)].
      * exists y. split; [by left|done].
      * exists x. split; [by right|done].
    + intros (x & Hx & Hf). apply elem_of_cons in Hx as [->|Hx].
      * by left.
      * right. by exists x.
Qed.

Lemma lacks_false v key : lacks v key = false ↔ contains key v ≠ Ok false.
Proof. unfold lacks. by destruct (contains key v) as [e|[]]. Qed.

(** How the assembly of the URL map fails on an object: in the bugs
    resolver, or, once the bugs entry is resolved, in the repository
    resolver. *)
Lemma construct_urls_err_iff package e :
  construct_urls urljoin (VDict package) = Err e
  ↔ (∃ b, package !! "bugs" = Some b ∧ _parse_bugs b = Err e)
    ∨ ((∃ o, copied package "bugs" _parse_bugs o)
       ∧ ∃ r, package !! "repository" = Some r
              ∧ _parse_repository urljoin r = Err e).
Proof.
  rewrite construct_urls_dict. cbv zeta. unfold copied.
  set (urls0 := match package !! "homepage" with
                | Some homepage => <["homepage" := homepage]> ∅
                | None => (∅ : gmap string value)
                end).
  destruct (package !! "bugs") as [b|].
  - destruct (_parse_bugs b) as [e'|u] eqn:Hb; simpl.
    + split.
      * intros [= ->]. left. by exists b.
      * intros [(b' & [= <-] & Hb')|[(o & r & Hr & _) _]]; [|done].
        rewrite Hb in Hb'. by injection Hb' as ->.
    + split.
      * intros H. right. split; [by exists (Some u), u|].
        destruct (package !! "repository") as [r|]; [|by destruct u].
        exists r. split; [done|].
        destruct (_parse_repository urljoin r) as [e''|x]; destruct u;
          simpl in H; first [by injection H as -> | done].
      * intros [(b' & [= <-] & Hb')|[_ (r & -> & ->)]];
          [by rewrite Hb in Hb'|].
        by destruct u.
  - split.
    + intros H. right. split; [by exists None|].
      destruct (package !! "repository") as [r|]; [|done].
      exists r. split; [done|].
      destruct (_parse_repository urljoin r) as [e''|x]; simpl in H;
        first [by injection H as -> | done].
    + intros [(b & Hb & _)|[_ (r & -> & ->)]]; done.
Qed.

End UpdateFailures.

(** X6: [update] fails in exactly these ways, each leaving the metadata as
    far as it was written, in the order of the source.  Loading the
    manifest fails: nothing is written.  The manifest is not an object and
    one of the fields is found in it, or the search itself raises:
    [TypeError], nothing is written.  The manifest is an object and the
    author fails to parse: nothing is written; the contributors fail: only
    [author] is written; the bugs resolver fails, or the repository
    resolver does once the bugs entry is resolved: [author], [maintainers],
    [keywords], [description] and [license] are written and [urls] is as it
    was. *)
Theorem update_failure_order urljoin (loaded : result value)
    (metadata metadata' : gmap string value) (e : error) :
  update urljoin loaded metadata = (metadata', Err e)
  ↔ (loaded = Err e ∧ metadata' = metadata)
    ∨ (∃ v, loaded = Ok v ∧ (∀ d, v ≠ VDict d)
            ∧ (∃ key, key ∈ manifest_fields ∧ contains key v ≠ Ok false)
            ∧ e = TypeError ∧ metadata' = metadata)
    ∨ (∃ package : gmap string value,
         loaded = Ok (VDict package)
         ∧ ((∃ v, package !! "author" = Some v ∧ _parse_person v = Err e
                  ∧ metadata' = metadata)
            ∨ (∃ a v, copied package "author" _parse_person a
                      ∧ package !! "contributors" = Some v
                      ∧ parse_contributors v = Err e
                      ∧ metadata' = put "author" a metadata)
            ∨ (∃ a m,
                 copied package "author" _parse_person a
                 ∧ copied package "contributors" parse_contributors m
                 ∧ ((∃ b, package !! "bugs" = Some b ∧ _parse_bugs b = Err e)
                    ∨ ((∃ o, copied package "bugs" _parse_bugs o)
                       ∧ ∃ r, package !! "repository" = Some r
                              ∧ _parse_repository urljoin r = Err e))
                 ∧ metadata'
                   = put "license" (package !! "license")
                       (put "description" (package !! "description")
                          (put "keywords" (package !! "keywords")
                             (put "maintainers" m
                                (put "author" a metadata))))))).
Proof.
  destruct loaded as [e'|v].
  { rewrite update_load_error. split.
    - intros [= <- <-]. by left.
    - intros [[[= ->] ->]|[(v & ? & _)|(p & ? & _)]]; done. }
  assert (Hcase : (∃ d, v = VDict d) ∨ (∀ d, v ≠ VDict d))
    by (destruct v; first [left; by eexists | by right]).
  destruct Hcase as [[package ->]|Hv'].
  - rewrite update_err_iff. setoid_rewrite <- construct_urls_err_iff. split.
    + intros H. right. right. exists package. split; [reflexivity|exact H].
    + intros [[? _]|[(v & [= <-] & Hv & _)|(p & [= <-] & H)]]; [done| |done].
      by destruct (Hv package).
  - rewrite update_non_object by done.
    destruct (forallb (lacks v) manifest_fields) eqn:Hf.
    + split; [done|].
      intros [[? _]|[(v' & [= <-] & _ & (key & Hin & Hc) & _)
                    |(p & [= ->] & _)]]; [done| |by destruct (Hv' p)].
      rewrite forallb_forall in Hf. apply lacks_false in Hc.
      apply list_elem_of_In in Hin. by rewrite (Hf _ Hin) in Hc.
    + apply forallb_false in Hf as (key & Hin & Hc%lacks_false). split.
      * intros [= <- <-]. right. left. exists v.
        split; [done|]. split; [done|]. split; [by exists key|done].
      * intros [[? _]|[(v' & [= <-] & _ & _ & -> & ->)
                      |(p & [= ->] & _)]]; [done|done|by destruct (Hv' p)].
Qed.

(** X7: an author that is not an object (the string form ["Name <email>"]
    that manifests commonly use, in particular) makes [update] raise
    [AttributeError] before it writes anything. *)
Theorem update_author_not_object urljoin
    (package metadata : gmap string value) (v : value) :
  package !! "author" = Some v →
  (∀ d, v ≠ VDict d) →
  update urljoin (Ok (VDict package)) metadata = (metadata, Err AttributeError).
Proof.
  intros Hv Hd. apply update_err_iff. left. exists v.
  split; [done|]. split; [|done]. destruct v; try done. by destruct (Hd d).
Qed.

Lemma update_author_not_object_witness :
  let urljoin := cpython_urljoin no_check no_check in
  let package : gmap string value :=
    {["author" := VStr "Jane Doe <jane@example.com>";
      "description" := VStr "x"]} in
  package !! "author" = Some (VStr "Jane Doe <jane@example.com>")
  ∧ (∀ d, VStr "Jane Doe <jane@example.com>" ≠ VDict d)
  ∧ update urljoin (Ok (VDict package)) ∅ = (∅, Err AttributeError).
Proof.
  intros urljoin package.
  assert (H1 : package !! "author" = Some (VStr "Jane Doe <jane@example.com>"))
    by reflexivity.
  assert (H2 : ∀ d, VStr "Jane Doe <jane@example.com>" ≠ VDict d)
    by discriminate.
  exact (conj H1 (conj H2 (update_author_not_object urljoin package ∅ _ H1 H2))).
Defined.

(** ** The hook instance *)
Section HookFacts.

Variable os_path_join : string → string → string.
Variable os_path_normpath : string → string.
Variable os_path_isfile : string → bool.
Variable json_load : string → result value.
Variable urljoin : string → string → result string.

Local Abbreviation hook_update :=
  (update_hook os_path_join os_path_normpath os_path_isfile json_load urljoin).

Implicit Types (self : hook) (p : string) (metadata : gmap string value).

Lemma path_ok_inv self self' p :
  path self = (self', Ok p) →
  __path self' = Some p ∧ config self' = config self ∧ root self' = root self.
Proof.
  unfold path. destruct self as [cfg rt [q|]]; simpl.
  - by intros [= <- <-].
  - destruct (default _ _); try done. by intros [= <- <-].
Qed.

Lemma path_cached self p : __path self = Some p → path self = (self, Ok p).
Proof. unfold path. by intros ->. Qed.

Lemma path_err_inv self self' e :
  path self = (self', Err e) →
  self' = self ∧ e = TypeError ∧ __path self = None
  ∧ ∃ v, config self !! "path" = Some v ∧ ∀ s, v ≠ VStr s.
Proof.
  unfold path. destruct (__path self) eqn:Hp; [done|].
  destruct (config self !! "path") as [v|] eqn:Hv; simpl; [|done].
  destruct v; try done; intros [= <- <-]; repeat split; eauto.
Qed.

(** X8: the first successful access to [path] wins: from then on the
    property answers with the same string and leaves the instance as it is,
    even if the configuration is replaced afterwards. *)
Theorem path_first_access_wins self self' p (config' : gmap string value) :
  path self = (self', Ok p) →
  path self' = (self', Ok p)
  ∧ path (Hook config' (root self') (__path self'))
    = (Hook config' (root self') (__path self'), Ok p).
Proof.
  intros (Hp & _ & _)%path_ok_inv. split; by apply path_cached.
Qed.

(** X9: when the [path] option is present and not a string, [update] on the
    instance raises [TypeError] whatever the file system holds; nothing is
    memoised and the metadata is untouched. *)
Theorem update_hook_path_not_string self metadata (v : value) :
  __path self = None →
  config self !! "path" = Some v →
  (∀ s, v ≠ VStr s) →
  hook_update self metadata = (self, (metadata, Err TypeError)).
Proof.
  intros Hc Hv Hs. unfold update_hook, load_package_data, path.
  rewrite Hc, Hv. simpl. destruct v; try done. by destruct (Hs s).
Qed.

(** X10: when no file exists at the normalised join of the root and the
    [path] option, [update] on the instance raises [OSError] with a message
    that names the option as configured, not the normalised path; the
    metadata is untouched. *)
Theorem update_hook_missing_file self self' p metadata :
  path self = (self', Ok p) →
  os_path_isfile (os_path_normpath (os_path_join (root self) p)) = false →
  hook_update self metadata
  = (self', (metadata, Err (OSError ("file does not exist: " +:+ p)))).
Proof.
  intros Hp Hf. unfold update_hook, load_package_data.
  rewrite Hp. destruct (path_ok_inv _ _ _ Hp) as (Hc & _ & Hr).
  simpl. rewrite Hr, Hf. simpl. by rewrite (path_cached _ _ Hc).
Qed.

(** X11: when the file exists, [update] on the instance proceeds on what
    decoding the file at the normalised join of the root and the [path]
    option gives; a decoding error is raised as it is, with the metadata
    untouched. *)
Theorem update_hook_reads_manifest self self' p metadata :
  path self = (self', Ok p) →
  os_path_isfile (os_path_normpath (os_path_join (root self) p)) = true →
  hook_update self metadata
  = (self', update urljoin
              (json_load (os_path_normpath (os_path_join (root self) p)))
              metadata)
  ∧ ∀ e, json_load (os_path_normpath (os_path_join (root self) p)) = Err e →
         hook_update self metadata = (self', (metadata, Err e)).
Proof.
  intros Hp Hf.
  assert (H : hook_update self metadata
              = (self', update urljoin
                   (json_load (os_path_normpath (os_path_join (root self) p)))
                   metadata)).
  { unfold update_hook, load_package_data.
    rewrite Hp. destruct (path_ok_inv _ _ _ Hp) as (_ & _ & Hr).
    simpl. by rewrite Hr, Hf. }
  split; [done|]. intros e He. by rewrite H, He.
Qed.

End HookFacts.

Lemma path_first_access_wins_witness :
  let self := __init__ {["path" := VStr "js/package.json"]} "/project" in
  let self' := Hook {["path" := VStr "js/package.json"]} "/project"
                 (Some "js/package.json") in
  path self = (self', Ok "js/package.json")
  ∧ path self' = (self', Ok "js/package.json")
  ∧ path (Hook {["path" := VInt 3]} (root self') (__path self'))
    = (Hook {["path" := VInt 3]} (root self') (__path self'),
       Ok "js/package.json").
Proof.
  intros self self'.
  assert (H : path self = (self', Ok "js/package.json")) by reflexivity.
  exact (conj H (path_first_access_wins self self' _ {["path" := VInt 3]} H)).
Defined.

Lemma update_hook_path_not_string_witness :
  let self := __init__ {["path" := VList [VStr "package.json"]]} "/project" in
  __path self = None
  ∧ config self !! "path" = Some (VList [VStr "package.json"])
  ∧ (∀ s, VList [VStr "package.json"] ≠ VStr s)
  ∧ update_hook (λ a b, a +:+ "/" +:+ b) id (λ _, true)
      (λ _, Ok (VDict ∅)) (cpython_urljoin no_check no_check) self ∅
    = (self, (∅, Err TypeError)).
Proof.
  intros self.
  assert (H1 : __path self = None) by reflexivity.
  assert (H2 : config self !! "path" = Some (VList [VStr "package.json"]))
    by reflexivity.
  assert (H3 : ∀ s, VList [VStr "package.json"] ≠ VStr s) by discriminate.
  exact (conj H1 (conj H2 (conj H3
    (update_hook_path_not_string _ _ _ _ _ self ∅ _ H1 H2 H3)))).
Defined.

Lemma update_hook_missing_file_witness :
  let self := __init__ ∅ "/project" in
  let self' := Hook ∅ "/project" (Some "package.json") in
  let join := λ a b, a +:+ "/" +:+ b in
  let isfile := λ f, String.eqb f "/project/pkg.json" in
  path self = (self', Ok "package.json")
  ∧ isfile (id (join (root self) "package.json")) = false
  ∧ update_hook join id isfile (λ _, Ok (VDict ∅))
      (cpython_urljoin no_check no_check) self {["license" := VStr "MIT"]}
    = (self', ({["license" := VStr "MIT"]},
               Err (OSError "file does not exist: package.json"))).
Proof.
  intros self self' join isfile.
  assert (H1 : path self = (self', Ok "package.json")) by reflexivity.
  assert (H2 : isfile (id (join (root self) "package.json")) = false)
    by reflexivity.
  exact (conj H1 (conj H2
    (update_hook_missing_file join id isfile _ _ self self' _ _ H1 H2))).
Defined.

Lemma update_hook_reads_manifest_witness :
  let self := __init__ ∅ "/project" in
  let self' := Hook ∅ "/project" (Some "package.json") in
  let join := λ a b, a +:+ "/" +:+ b in
  let isfile := λ f, String.eqb f "/project/package.json" in
  let json_load := λ _ : string, @Err value JSONDecodeError in
  path self = (self', Ok "package.json")
  ∧ isfile (id (join (root self) "package.json")) = true
  ∧ update_hook join id isfile json_load
      (cpython_urljoin no_check no_check) self {["license" := VStr "MIT"]}
    = (self', ({["license" := VStr "MIT"]}, Err JSONDecodeError)).
Proof.
  intros self self' join isfile json_load.
  assert (H1 : path self = (self', Ok "package.json")) by reflexivity.
  assert (H2 : isfile (id (join (root self) "package.json")) = true)
    by reflexivity.
  exact (conj H1 (conj H2
    (proj2 (update_hook_reads_manifest join id isfile json_load _
              self self' _ _ H1 H2) _ eq_refl))).
Defined.

(** ** More author strings *)
Section AuthorForms.

Implicit Types (c : gmap nat string) (p q n : nat) (s t u v r : string).

Local Abbreviation WS := (RStar (ASet [" "%char; tab])).
Local Abbreviation EMAIL :=
  (RAtom (ALit "<") ⋅ RGroup 2 (RLazyPlus (ANotSet [">"; "("]%char))
   ⋅ RAtom (ALit ">")).
Local Abbreviation URL :=
  (RAtom (ALit "(") ⋅ RGroup 3 (RLazyPlus (ANotSet [")"]%char))
   ⋅ RAtom (ALit ")")).
Local Abbreviation K3 := (RAlt URL REol).
Local Abbreviation K2 := (ROpt EMAIL ⋅ WS ⋅ K3).
Local Abbreviation K := (WS ⋅ K2).

Lemma greedy_star_all a p u c :
  all_chars (atom_ok a) u = true →
  starts (greedy_star a p u c) (MState (p + String.length u) "" c).
Proof.
  intros H. pose proof (greedy_star_max a p u "" c H eq_refl) as Hs.
  by rewrite sapp_nil_r in Hs.
Qed.

(** ["Display Name <email>"], with nothing but blanks after it. *)
Lemma re_match_author_email name sep1 email sep2 :
  name ≠ "" → free_of ["<"; "("]%char name = true →
  ends_with blank name = false →
  all_chars blank sep1 = true →
  email ≠ "" → free_of [">"; "("]%char email = true →
  all_chars blank sep2 = true →
  re_match AUTHOR_PATTERN (name +:+ sep1 +:+ "<" +:+ email +:+ ">" +:+ sep2)
  = Some (<[2 := email]> (<[1 := name]> ∅)).
Proof.
  intros Hn Hfree Hend Hs1 He Hefree Hs2.
  change ("<" +:+ email +:+ ">" +:+ sep2)
    with (String "<" (email +:+ String ">" sep2)).
  set (final := MState
    (S (S (String.length name + String.length sep1 + String.length email))
     + String.length sep2) ""
    (<[2 := email]> (<[1 := name]> ∅))).
  apply (author_name_first name _ final).
  { repeat split; try done. intros H. by apply sapp_eq_nil in H as [_ ?]. }
  rewrite rmatch_seq, rmatch_star.
  eapply starts_bind; [by apply greedy_star_max|].
  rewrite rmatch_seq, rmatch_opt.
  eapply starts_bind.
  { apply starts_app. rewrite rmatch_bracket by done. apply starts_here. }
  rewrite rmatch_seq, rmatch_star.
  eapply starts_bind; [by apply greedy_star_all|].
  apply starts_here.
Qed.


Lemma blank_not_bracket x :
  blank x = true →
  Ascii.eqb x "<" = false ∧ Ascii.eqb x "(" = false
  ∧ atom_ok (ANotSet ["<"; "("]%char) x = true.
Proof.
  unfold blank, mem. simpl. rewrite orb_false_r. intros H.
  apply orb_true_iff in H as [H|H]; apply Ascii.eqb_eq in H; by subst.
Qed.

Lemma blanks_not_bracket s :
  all_chars blank s = true →
  all_chars (atom_ok (ANotSet ["<"; "("]%char)) s = true.
Proof.
  induction s as [|x s IH]; [done|]. simpl. intros H.
  apply andb_true_iff in H as [Hx Hs].
  destruct (blank_not_bracket x Hx) as (_ & _ & H). simpl in H.
  by rewrite H, IH.
Qed.

(** A lazy body that never meets its closing character. *)
Lemma group_unclosed_fail a n cl t q c :
  all_chars (atom_ok a) t = true → atom_ok a cl = false →
  rmatch (RGroup n (RLazyPlus a) ⋅ RAtom (ALit cl)) (MState q t c) = [].
Proof.
  intros Hall Hcl. rewrite rmatch_seq. destruct t as [|x t]; [done|].
  simpl in Hall. apply andb_true_iff in Hall as [Hx Hall].
  rewrite rmatch_group_lazy_plus, Hx.
  rewrite <- (sapp_nil_r t) at 1. rewrite lazy_from_skip; [done|done|].
  intros t1 [|y t2] -> Ht2; [done|].
  rewrite sapp_cons, rmatch_atom_cons. unfold atom_ok at 1.
  rewrite all_chars_app in Hall. apply andb_true_iff in Hall as [_ Hall].
  simpl in Hall. apply andb_true_iff in Hall as [Hy _].
  destruct (Ascii.eqb_spec y cl) as [->|]; [congruence | done].
Qed.

Lemma url_or_end_unclosed s t q c :
  all_chars blank s = true → free_of [")"]%char t = true →
  rmatch K3 (MState q (s +:+ String "(" t) c) = [].
Proof.
  intros Hs Ht. rewrite rmatch_alt, rmatch_eol. simpl rest.
  destruct s as [|x s].
  - rewrite sapp_nil_l, rmatch_seq, rmatch_atom_cons.
    change (atom_ok (ALit "(") "(") with true. cbv iota.
    rewrite bind_singleton, group_unclosed_fail by done. by destruct t.
  - simpl in Hs. apply andb_true_iff in Hs as [Hx _].
    destruct (blank_not_bracket x Hx) as (_ & Hp & _).
    rewrite sapp_cons, rmatch_seq, rmatch_atom_cons. unfold atom_ok.
    rewrite Hp. simpl. by destruct s.
Qed.

Lemma blanks_unclosed (k : mstate → list mstate) t c :
  (∀ s q, all_chars blank s = true →
          k (MState q (s +:+ String "(" t) c) = []) →
  ∀ s q, all_chars blank s = true →
         rmatch WS (MState q (s +:+ String "(" t) c) ≫= k = [].
Proof.
  intros Hk. induction s as [|x s IH]; intros q Hs.
  - rewrite rmatch_star, sapp_nil_l, greedy_star_cons.
    change (atom_ok (ASet [" "%char; tab]) "(") with false. cbv iota.
    rewrite bind_singleton. by apply (Hk "").
  - pose proof Hs as Hs'. simpl in Hs'.
    apply andb_true_iff in Hs' as [Hx Hs'].
    rewrite rmatch_star, sapp_cons, greedy_star_cons.
    change (atom_ok (ASet [" "%char; tab]) x) with (blank x). rewrite Hx.
    rewrite bind_app, bind_singleton.
    pose proof (IH (S q) Hs') as IH'. rewrite rmatch_star in IH'.
    rewrite IH'. rewrite <- sapp_cons. by rewrite Hk.
Qed.

Lemma author_tail_unclosed s t q c :
  all_chars blank s = true → free_of [")"]%char t = true →
  rmatch K (MState q (s +:+ String "(" t) c) = [].
Proof.
  intros Hs Ht. rewrite rmatch_seq. revert s q Hs. apply blanks_unclosed.
  intros s q Hs. rewrite rmatch_seq, rmatch_opt, bind_app, bind_singleton.
  assert (rmatch EMAIL (MState q (s +:+ String "(" t) c) = []) as ->.
  { rewrite rmatch_seq. destruct s as [|x s].
    - by rewrite sapp_nil_l, rmatch_atom_cons.
    - simpl in Hs. apply andb_true_iff in Hs as [Hx _].
      destruct (blank_not_bracket x Hx) as (Hlt & _ & _).
      rewrite sapp_cons, rmatch_atom_cons. unfold atom_ok. by rewrite Hlt. }
  assert (rmatch (WS ⋅ K3) (MState q (s +:+ String "(" t) c) = []) as ->;
    [|done].
  rewrite rmatch_seq. revert s q Hs. apply blanks_unclosed.
  intros s q Hs. by apply url_or_end_unclosed.
Qed.

(** A display name followed by a parenthesis that is never closed. *)
Lemma re_match_author_unclosed name sep t :
  name ≠ "" → free_of ["<"; "("]%char name = true →
  ends_with blank name = false →
  all_chars blank sep = true → free_of [")"]%char t = true →
  re_match AUTHOR_PATTERN (name +:+ sep +:+ "(" +:+ t) = None.
Proof.
  intros Hn Hfree Hend Hs Ht.
  change ("(" +:+ t) with (String "(" t).
  assert (Hin : inside name (sep +:+ String "(" t)).
  { repeat split; try done. intros H. by apply sapp_eq_nil in H as [_ ?]. }
  unfold re_match, AUTHOR_PATTERN.
  rewrite rmatch_seq, rmatch_bol, bind_singleton.
  rewrite rmatch_seq, rmatch_opt, bind_app, bind_singleton.
  rewrite (author_tail_fail name) by done. rewrite app_nil_r.
  destruct name as [|x name]; [done|].
  rewrite free_of_cons in Hfree. apply andb_true_iff in Hfree as [Hx Hfree].
  rewrite sapp_cons, rmatch_group_lazy_plus. unfold atom_ok at 1. rewrite Hx.
  rewrite lazy_from_skip; [|exact Hfree|].
  2:{ intros t1 t2 -> Ht2. apply author_tail_fail.
      apply (inside_suffix (String x t1)); [|done]. by rewrite sapp_cons. }
  rewrite lazy_from_skip; [|by apply blanks_not_bracket|].
  2:{ intros s1 s2 -> Hs2. apply author_tail_unclosed; [|done].
      rewrite all_chars_app in Hs. by apply andb_true_iff in Hs as [_ ?]. }
  simpl lazy_from. rewrite bind_singleton.
  by rewrite <- (sapp_nil_l (String "(" t)), author_tail_unclosed.
Qed.

End AuthorForms.

(** X12: an author name of the form ["Display Name <email>"], with nothing
    but blanks after the closing bracket, parses to the display name and
    the email. *)
Theorem parse_person_name_email (d : gmap string value)
    (name sep1 email sep2 : string) :
  d !! "name" = Some (VStr (name +:+ sep1 +:+ "<" +:+ email +:+ ">" +:+ sep2)) →
  d !! "email" = None → d !! "url" = None →
  name ≠ "" → free_of ["<"; "("]%char name = true →
  ends_with blank name = false →
  all_chars blank sep1 = true →
  email ≠ "" → free_of [">"; "("]%char email = true →
  all_chars blank sep2 = true →
  _parse_person (VDict d)
  = Ok (VDict (<["email" := VStr email]> {["name" := VStr name]})).
Proof.
  intros Hd He Hu **. rewrite (parse_person_string d _ Hd He Hu).
  by rewrite re_match_author_email.
Qed.

Lemma parse_person_name_email_witness :
  _parse_person (VDict {["name" := VStr "Jane Doe <jane@example.com>"]})
  = Ok (VDict (<["email" := VStr "jane@example.com"]>
                 {["name" := VStr "Jane Doe"]})).
Proof.
  apply (parse_person_name_email _ "Jane Doe" " " "jane@example.com" "");
    first [reflexivity | discriminate].
Defined.



(** X14: a display name followed by an opening parenthesis that is never
    closed does not match the author pattern: the parser raises a
    [ValueError] that names the string. *)
Theorem parse_person_unclosed_parenthesis (d : gmap string value)
    (name sep t : string) :
  d !! "name" = Some (VStr (name +:+ sep +:+ "(" +:+ t)) →
  d !! "email" = None → d !! "url" = None →
  name ≠ "" → free_of ["<"; "("]%char name = true →
  ends_with blank name = false →
  all_chars blank sep = true →
  free_of [")"]%char t = true →
  _parse_person (VDict d)
  = Err (ValueError ("Invalid author name: " +:+ name +:+ sep +:+ "(" +:+ t)).
Proof.
  intros Hd He Hu **. rewrite (parse_person_string d _ Hd He Hu).
  by rewrite re_match_author_unclosed.
Qed.

Lemma parse_person_unclosed_parenthesis_witness :
  _parse_person (VDict {["name" := VStr "Jane Doe (maintainer"]})
  = Err (ValueError "Invalid author name: Jane Doe (maintainer").
Proof.
  apply (parse_person_unclosed_parenthesis _ "Jane Doe" " " "maintainer");
    first [reflexivity | discriminate].
Defined.

(** X15: the person parser raises [AttributeError] on anything that is not
    an object, [KeyError] on an object without [name] (structured or not),
    and [TypeError] on an unstructured object whose [name] is not a
    string. *)
Theorem parse_person_errors :
  (∀ v, (∀ d, v ≠ VDict d) → _parse_person v = Err AttributeError)
  ∧ (∀ d : gmap string value,
       d !! "name" = None → _parse_person (VDict d) = Err (KeyError "name"))
  ∧ (∀ (d : gmap string value) v,
       d !! "name" = Some v → d !! "email" = None → d !! "url" = None →
       (∀ s, v ≠ VStr s) →
       _parse_person (VDict d) = Err TypeError).
Proof.
  split; [|split].
  - intros v Hv. destruct v; try done. by destruct (Hv d).
  - intros d Hn. unfold _parse_person. simpl. unfold getitem. rewrite Hn.
    by destruct (bool_decide _).
  - intros d v Hn He Hu Hv. unfold _parse_person. simpl.
    rewrite (structured_false d He Hu). unfold getitem. rewrite Hn. simpl.
    destruct v; try done. by destruct (Hv s).
Qed.

Lemma parse_person_errors_witness :
  _parse_person (VStr "Jane Doe") = Err AttributeError
  ∧ _parse_person (VDict {["email" := VStr "jane@example.com"]})
    = Err (KeyError "name")
  ∧ _parse_person (VDict {["name" := VInt 7]}) = Err TypeError.
Proof.
  destruct parse_person_errors as (H1 & H2 & H3).
  split; [|split].
  - apply H1. discriminate.
  - apply H2. reflexivity.
  - apply (H3 _ (VInt 7)); first [reflexivity | discriminate].
Defined.

(** ** A line feed at the end of a repository string *)
Section TrailingLineFeed.

Variable urljoin : string → string → result string.

Implicit Types (s t w : string).

Lemma has_char_app x s t :
  has_char x (s +:+ t) = has_char x s || has_char x t.
Proof.
  induction s as [|y s IH]; [done|].
  rewrite sapp_cons. simpl. by rewrite IH, orb_assoc.
Qed.

Lemma prefix_line_feed w s :
  has_char newline w = false →
  String.prefix w (s +:+ String newline "") = String.prefix w s.
Proof.
  revert s. induction w as [|a w IH]; intros s Hw.
  - destruct s; [done|]. by rewrite sapp_cons.
  - simpl in Hw. apply orb_false_iff in Hw as [Ha Hw].
    destruct s as [|y s].
    + rewrite sapp_nil_l. simpl.
      destruct (ascii_dec a newline) as [->|]; [|done].
      by rewrite Ascii.eqb_refl in Ha.
    + rewrite sapp_cons. simpl. destruct (ascii_dec a y); [by apply IH|done].
Qed.

Lemma tag_of_line_feed s : tag_of (s +:+ String newline "") = tag_of s.
Proof.
  unfold tag_of, provider_tags. simpl.
  by rewrite !prefix_line_feed.
Qed.

Lemma one_line_line_feed s :
  has_char newline s = false →
  one_line (s +:+ String newline "") = true
  ∧ chomp (s +:+ String newline "") = s.
Proof.
  induction s as [|x s IH]; [done|]. intros H. simpl in H.
  apply orb_false_iff in H as [Hx Hs]. rewrite sapp_cons.
  destruct (IH Hs) as [H1 H2]. simpl. rewrite Hx, H1, H2. simpl.
  split; [done|]. destruct (s +:+ String newline "") eqn:E; [|done].
  by apply sapp_eq_nil in E as [_ ?].
Qed.

End TrailingLineFeed.

(** X16: a line feed at the very end of a repository string is ignored:
    the resolver gives the string the outcome it gives the string without
    it. *)
Theorem parse_repository_trailing_line_feed urljoin (s : string) :
  has_char newline s = false →
  _parse_repository urljoin (VStr (s +:+ String newline ""))
  = _parse_repository urljoin (VStr s).
Proof.
  intros Hs. rewrite !parse_repository_string, tag_of_line_feed.
  destruct (one_line_line_feed s Hs) as [-> Hc].
  destruct (one_line_no_newline s Hs) as [-> Hc'].
  rewrite Hc, Hc'.
  destruct (tag_of s) as [tag|] eqn:Htag; [|done].
  apply tag_of_Some in Htag as [_ Htag].
  remember (drop (S (String.length tag)) s) as s' eqn:E. clear E Hc Hc'.
  subst s. rewrite !has_char_app in Hs.
  apply orb_false_iff in Hs as [_ [_ Hs']%orb_false_iff].
  change (tag +:+ ":" +:+ s') with (tag +:+ String ":" s').
  rewrite sapp_assoc, sapp_cons, drop_succ_app.
  destruct (one_line_line_feed s' Hs') as [_ ->].
  by destruct (one_line_no_newline s' Hs') as [_ ->].
Qed.

Lemma parse_repository_trailing_line_feed_witness :
  let urljoin := cpython_urljoin no_check no_check in
  has_char newline "gitlab:baz/qux" = false
  ∧ _parse_repository urljoin (VStr ("gitlab:baz/qux" +:+ String newline ""))
    = _parse_repository urljoin (VStr "gitlab:baz/qux").
Proof.
  intros urljoin.
  assert (H : has_char newline "gitlab:baz/qux" = false) by reflexivity.
  exact (conj H (parse_repository_trailing_line_feed urljoin _ H)).
Defined.

(** ** [urljoin] on a relative path *)
Section UrlJoinPath.

Implicit Types (s t w : string) (segs : list string) (x : ascii).

Lemma all_chars_impl (p q : ascii → bool) s :
  (∀ x, p x = true → q x = true) →
  all_chars p s = true → all_chars q s = true.
Proof.
  intros Hpq. induction s as [|x s IH]; [done|]. simpl.
  intros [Hx Hs]%andb_true_iff. by rewrite (Hpq _ Hx), IH.
Qed.

Lemma has_char_false x s (p : ascii → bool) :
  p x = false → all_chars p s = true → has_char x s = false.
Proof.
  intros Hx. induction s as [|y s IH]; [done|]. simpl.
  intros [Hy Hs]%andb_true_iff. rewrite (IH Hs), orb_false_r.
  apply Ascii.eqb_neq. intros ->. congruence.
Qed.

Lemma find_none x s :
  has_char x s = false → UrlParse.find (UrlParse.is_char x) s = None.
Proof.
  induction s as [|y s IH]; [done|]. simpl. unfold UrlParse.is_char at 1.
  intros [-> Hs]%orb_false_iff. by rewrite (IH Hs).
Qed.

Lemma remove_chars_id (p q : ascii → bool) s :
  (∀ x, q x = true → p x = false) →
  all_chars q s = true → UrlParse.remove_chars p s = s.
Proof.
  intros Hpq. induction s as [|x s IH]; [done|]. simpl.
  intros [Hx Hs]%andb_true_iff. by rewrite (Hpq _ Hx), IH.
Qed.

Lemma plain_not_unsafe x :
  plain_or_slash x = true → UrlParse.is_unsafe x = false.
Proof.
  intros H. destruct (UrlParse.is_unsafe x) eqn:Hu; [|done].
  unfold UrlParse.is_unsafe, mem in Hu. simpl in Hu.
  rewrite orb_false_r in Hu.
  apply orb_true_iff in Hu as [Hu|[Hu|Hu]%orb_true_iff];
    apply Ascii.eqb_eq in Hu; by subst.
Qed.

Lemma segment_inv w :
  segment w = true →
  w ≠ "" ∧ all_chars plain w = true ∧ w ≠ "." ∧ w ≠ "..".
Proof.
  unfold segment. intros [[[H1 H2]%andb_true_iff H3]%andb_true_iff
                           H4]%andb_true_iff.
  repeat split; [|done|..].
  - by destruct w.
  - intros ->. done.
  - intros ->. done.
Qed.

Lemma split_free w :
  has_char "/" w = false → UrlParse.split "/" w = [w].
Proof.
  induction w as [|x w IH]; [done|]. simpl.
  intros [-> Hw]%orb_false_iff. by rewrite (IH Hw).
Qed.

Lemma split_app w t :
  has_char "/" w = false →
  UrlParse.split "/" (w +:+ String "/" t) = w :: UrlParse.split "/" t.
Proof.
  induction w as [|x w IH]; [done|]. intros H. simpl in H.
  apply orb_false_iff in H as [Hx Hw]. rewrite sapp_cons. simpl.
  by rewrite Hx, (IH Hw).
Qed.

Lemma join_cons w w' segs :
  UrlParse.join "/" (w :: w' :: segs)
  = w +:+ String "/" (UrlParse.join "/" (w' :: segs)).
Proof. reflexivity. Qed.

Lemma plain_no_slash w : all_chars plain w = true → has_char "/" w = false.
Proof. by apply has_char_false. Qed.

Lemma split_join segs :
  segs ≠ [] → Forall (λ w, segment w = true) segs →
  UrlParse.split "/" (UrlParse.join "/" segs) = segs.
Proof.
  induction segs as [|w segs IH]; [done|]. intros _ Hall.
  apply Forall_cons in Hall as [Hw Hall].
  apply segment_inv in Hw as (_ & Hw & _).
  destruct segs as [|w' segs].
  - simpl. by apply split_free, plain_no_slash.
  - rewrite join_cons, split_app by by apply plain_no_slash.
    by rewrite IH.
Qed.

Lemma join_plain segs :
  Forall (λ w, segment w = true) segs →
  all_chars plain_or_slash (UrlParse.join "/" segs) = true.
Proof.
  induction segs as [|w segs IH]; [done|]. intros Hall.
  apply Forall_cons in Hall as [Hw Hall].
  apply segment_inv in Hw as (_ & Hw & _).
  assert (Hw' : all_chars plain_or_slash w = true).
  { revert Hw. apply all_chars_impl. intros x Hx. unfold plain_or_slash.
    by rewrite Hx. }
  destruct segs as [|w' segs]; [done|].
  rewrite join_cons, all_chars_app, Hw'. simpl. by apply IH.
Qed.

Lemma join_head w segs :
  segment w = true →
  ∃ x t, UrlParse.join "/" (w :: segs) = String x t ∧ plain x = true.
Proof.
  intros (Hne & Hw & _)%segment_inv. destruct w as [|x w]; [done|].
  simpl in Hw. apply andb_true_iff in Hw as [Hx _].
  destruct segs as [|w' segs].
  - by exists x, w.
  - exists x, (w +:+ String "/" (UrlParse.join "/" (w' :: segs))).
    by rewrite join_cons, sapp_cons.
Qed.

Variables check_bracketed_netloc check_nfkc : string → option string.

Lemma prefix_cons_ne a w x t :
  a ≠ x → String.prefix (String a w) (String x t) = false.
Proof.
  intros H.
  change (String.prefix (String a w) (String x t))
    with (if ascii_dec a x then String.prefix w t else false).
  by destruct (ascii_dec a x).
Qed.

Lemma plain_inv x :
  plain x = true →
  UrlParse.is_c0_or_space x = false ∧ Ascii.eqb x "/" = false.
Proof.
  unfold plain, mem. simpl. intros [H1 H2]%andb_true_iff.
  apply negb_true_iff in H1, H2.
  apply orb_false_iff in H2 as [_ [H2 _]%orb_false_iff]. done.
Qed.

Lemma plain_or_slash_not x y :
  mem y [":"; "?"; "#"; ";"]%char = true → plain_or_slash y = false.
Proof.
  unfold mem. simpl. rewrite orb_false_r. intros H.
  repeat (apply orb_true_iff in H as [H|H]);
    apply Ascii.eqb_eq in H; by subst.
Qed.

(** [urlparse] on a relative path made of plain characters and slashes. *)
Lemma urlparse_relative x t :
  plain x = true → all_chars plain_or_slash (String x t) = true →
  UrlParse.urlparse check_bracketed_netloc check_nfkc (String x t) "https"
  = Ok (UrlParse.ParseResult "https" "" (String x t) "" "" "").
Proof.
  intros Hx Hall. destruct (plain_inv x Hx) as [Hc0 Hsl].
  assert (Hno : ∀ y, mem y [":"; "?"; "#"; ";"]%char = true →
                     has_char y (String x t) = false).
  { intros y Hy. apply (has_char_false _ _ plain_or_slash); [|done].
    by apply (plain_or_slash_not x). }
  unfold UrlParse.urlparse, UrlParse.urlsplit.
  change (UrlParse.strip UrlParse.is_c0_or_space "https") with "https".
  change (UrlParse.remove_chars UrlParse.is_unsafe "https") with "https".
  simpl UrlParse.lstrip. rewrite Hc0.
  rewrite (remove_chars_id _ plain_or_slash) by (done || apply plain_not_unsafe).
  rewrite (find_none ":") by by apply Hno.
  rewrite prefix_cons_ne by (intros <-; done).
  cbv beta iota delta [rbind Ok].
  rewrite (Hno "#"%char), (Hno "?"%char) by done.
  change (UrlParse._checknetloc check_nfkc "") with (@None string).
  cbv beta iota. by rewrite (Hno ";"%char), andb_false_r.
Qed.

Lemma filter_middle_segments segs :
  segs ≠ [] → Forall (λ w, segment w = true) segs →
  UrlParse.filter_middle ("" :: segs) = "" :: segs.
Proof.
  intros Hne Hall. unfold UrlParse.filter_middle.
  destruct segs as [|w segs]; [done|]. f_equal. clear Hne.
  revert w Hall. induction segs as [|w' segs IH]; intros w Hall; [done|].
  apply Forall_cons in Hall as [Hw Hall].
  apply segment_inv in Hw as (Hw & _).
  change (removelast (w :: w' :: segs)) with (w :: removelast (w' :: segs)).
  change (List.last (w :: w' :: segs) "") with (List.last (w' :: segs) "").
  rewrite filter_cons_True by by destruct w.
  simpl. f_equal. by apply IH.
Qed.

Lemma fold_left_resolve_seg segs acc :
  Forall (λ w, w ≠ "." ∧ w ≠ "..") segs →
  fold_left UrlParse.resolve_seg segs acc = acc ++ segs.
Proof.
  revert acc. induction segs as [|w segs IH]; intros acc Hall.
  - by rewrite app_nil_r.
  - apply Forall_cons in Hall as [[H1 H2] Hall]. simpl.
    unfold UrlParse.resolve_seg at 2.
    apply String.eqb_neq in H1, H2. rewrite H1, H2.
    rewrite IH by done. by rewrite <- app_assoc.
Qed.

Lemma last_segment segs :
  segs ≠ [] → Forall (λ w, segment w = true) segs →
  UrlParse.str_mem (List.last segs "") ["."; ".."] = false.
Proof.
  intros Hne Hall.
  assert (Hin : List.last segs "" ∈ segs).
  { rewrite (app_removelast_last "" Hne) at 2.
    apply elem_of_app. right. apply list_elem_of_singleton. done. }
  rewrite Forall_forall in Hall. apply Hall in Hin.
  apply segment_inv in Hin as (_ & _ & H1 & H2).
  apply String.eqb_neq in H1, H2. unfold UrlParse.str_mem. simpl.
  by rewrite H1, H2.
Qed.

(** [urljoin] of a base that has a network location and no path with a
    relative path made of clean segments: the path is appended. *)
Lemma urljoin_segments base host segs :
  is_empty base = false → host ≠ "" →
  UrlParse.urlparse check_bracketed_netloc check_nfkc base ""
  = Ok (UrlParse.ParseResult "https" host "" "" "" "") →
  segs ≠ [] → Forall (λ w, segment w = true) segs →
  cpython_urljoin check_bracketed_netloc check_nfkc base
    (UrlParse.join "/" segs)
  = Ok ("https://" +:+ host +:+ "/" +:+ UrlParse.join "/" segs).
Proof.
  intros Hbase Hhost Hparse Hne Hall.
  pose proof (split_join segs Hne Hall) as Hsplit.
  pose proof (join_plain segs Hall) as Hplain.
  pose proof (filter_middle_segments segs Hne Hall) as Hmid.
  pose proof (last_segment segs Hne Hall) as Hlast.
  assert (Hdots : Forall (λ w, w ≠ "." ∧ w ≠ "..") ("" :: segs)).
  { apply Forall_cons. split; [done|].
    eapply Forall_impl; [exact Hall|]. intros w Hw.
    by apply segment_inv in Hw as (_ & _ & ? & ?). }
  assert (Hjoin : UrlParse.join "/" ("" :: segs)
                  = String "/" (UrlParse.join "/" segs)).
  { by destruct segs. }
  destruct segs as [|w segs]; [done|].
  apply Forall_cons in Hall as [Hw _].
  destruct (join_head w segs Hw) as (x & t & Hxt & Hx).
  rewrite Hxt in *. clear Hxt.
  unfold cpython_urljoin, UrlParse.urljoin. rewrite Hbase.
  simpl is_empty. cbv iota.
  rewrite Hparse, rbind_ok. cbv beta. simpl UrlParse.scheme at 1.
  rewrite urlparse_relative, rbind_ok by done. cbv beta.
  cbn [UrlParse.scheme UrlParse.netloc UrlParse.path UrlParse.params
       UrlParse.query UrlParse.fragment].
  change (UrlParse.str_mem "https" UrlParse.uses_relative) with true.
  change (UrlParse.str_mem "https" UrlParse.uses_netloc) with true.
  change (negb ("https" =? "https")%string) with false.
  change (UrlParse.split "/" "") with [""].
  cbn [negb orb andb is_empty List.last app].
  apply plain_inv in Hx as [_ Hx]. apply Ascii.eqb_neq in Hx.
  rewrite prefix_cons_ne by (intros <-; done). rewrite Hsplit.
  change ([""] ++ w :: segs) with ("" :: w :: segs).
  rewrite Hmid.
  change (List.last ("" :: w :: segs) "") with (List.last (w :: segs) "").
  unfold UrlParse.str_mem. unfold UrlParse.str_mem in Hlast.
  cbn [existsb] in Hlast |- *.
  rewrite !Hlast, fold_left_resolve_seg by done.
  change ([] ++ "" :: w :: segs) with ("" :: w :: segs).
  rewrite Hjoin. cbn [is_empty].
  unfold UrlParse.urlunparse, UrlParse.urlunsplit.
  cbn [UrlParse.scheme UrlParse.netloc UrlParse.path UrlParse.params
       UrlParse.query UrlParse.fragment is_empty].
  destruct host as [|h host]; [done|]. cbn [is_empty negb orb andb].
  change (String.prefix "/" (String "/" (String x t))) with true.
  cbn [negb]. by rewrite !sapp_cons, !sapp_nil_l.
Qed.

End UrlJoinPath.

Lemma prefix_has_char a c b s :
  String.prefix (a +:+ String c b) s = true → has_char c s = true.
Proof.
  intros H. apply prefix_inv in H. rewrite H, !has_char_app. simpl.
  by rewrite Ascii.eqb_refl, orb_true_r.
Qed.

Lemma repository_table_bases chk1 chk2 tag base :
  REPOSITORY_TABLE !! tag = Some base →
  ∃ host, host ≠ "" ∧ base = "https://" +:+ host
          ∧ UrlParse.urlparse chk1 chk2 base ""
            = Ok (UrlParse.ParseResult "https" host "" "" "" "").
Proof.
  unfold REPOSITORY_TABLE. intros H.
  repeat (apply lookup_insert_Some in H as [[_ <-]|[_ H]];
          [eexists; split; [|split; [reflexivity|vm_compute; reflexivity]];
           discriminate|]).
  apply lookup_singleton_Some in H as [_ <-].
  eexists; split; [|split; [reflexivity|vm_compute; reflexivity]].
  discriminate.
Qed.

(** X17: a provider shorthand whose identifier is a path of segments
    (non-empty, other than [.] and [..], free of blanks, control
    characters and the delimiters [: / ? # ;]) resolves to the provider's
    base URL followed by a slash and the identifier; without a tag the
    same identifier resolves under the github base URL. *)
Theorem parse_repository_segments chk1 chk2 tag base segs :
  REPOSITORY_TABLE !! tag = Some base →
  segs ≠ [] → Forall (λ w, segment w = true) segs →
  let urljoin := cpython_urljoin chk1 chk2 in
  let ident := UrlParse.join "/" segs in
  _parse_repository urljoin (VStr (tag +:+ ":" +:+ ident))
  = Ok (VStr (base +:+ "/" +:+ ident))
  ∧ _parse_repository urljoin (VStr ident)
    = Ok (VStr ("https://github.com/" +:+ ident)).
Proof.
  intros Hbase Hne Hall urljoin ident.
  pose proof (join_plain segs Hall) as Hplain. fold ident in Hplain.
  assert (Hnl : has_char newline ident = false)
    by by apply (has_char_false _ _ plain_or_slash).
  assert (Hcolon : has_char ":" ident = false)
    by by apply (has_char_false _ _ plain_or_slash).
  split.
  - destruct (repository_table_bases chk1 chk2 _ _ Hbase)
      as (host & Hhost & -> & Hparse).
    rewrite (parse_repository_tagged _ _ ("https://" +:+ host)) by done.
    unfold urljoin, ident.
    rewrite (urljoin_segments chk1 chk2 _ host) by done.
    simpl. by rewrite !sapp_cons, !sapp_nil_l.
  - rewrite parse_repository_untagged; [|done|].
    + unfold urljoin, ident.
      rewrite (urljoin_segments chk1 chk2 _ "github.com");
        [done|done|done|apply urlparse_github|done|done].
    + intros t _. destruct (String.prefix (t +:+ ":") ident) eqn:E; [|done].
      apply prefix_has_char in E. congruence.
Qed.

Lemma parse_repository_segments_witness :
  _parse_repository (cpython_urljoin no_check no_check)
    (VStr "gist:octocat/6cad326836d38bd3a7ae")
  = Ok (VStr "https://gist.github.com/octocat/6cad326836d38bd3a7ae")
  ∧ _parse_repository (cpython_urljoin no_check no_check)
      (VStr "octocat/6cad326836d38bd3a7ae")
    = Ok (VStr "https://github.com/octocat/6cad326836d38bd3a7ae").
Proof.
  apply (parse_repository_segments no_check no_check "gist"
           "https://gist.github.com" ["octocat"; "6cad326836d38bd3a7ae"]).
  - reflexivity.
  - discriminate.
  - repeat constructor.
Defined.
